(** * Wikipedia section flattening, cleaning and token-bounded splitting

    A shallow embedding of the section pipeline of
    [examples/Embedding_Wikipedia_articles_for_search.ipynb]:
    [all_subsections_from_section], [clean_section], [num_tokens],
    [halved_by_delimiter], [truncated_string] and
    [split_strings_from_subsection].

    Python [str] values are [string]s (characters are the code points below
    256), Python [int]s are [Z], list positions are [nat].  The two third-party
    libraries the notebook calls are interfaces here: the tokenizer
    ([tiktoken]) is the class [Tokenizer], the wikitext parser
    ([mwparserfromhell]) is the class [WikicodeLib]. *)

From Stdlib Require Import ZArith List String Ascii Bool Arith Lia.
From Stdlib Require Import ListSet.
Import ListNotations.

Open Scope string_scope.
Open Scope list_scope.

(* ================================================================= *)
(** ** Outcomes of a call *)

(** The Python exceptions the modelled functions can raise. *)
Inductive exn : Type :=
| ValueError   (* [str.split] with an empty separator *)
| IndexError.  (* list index out of range *)

(** A call returns a value, raises, or (for the two recursive functions, whose
    recursion is driven by a fuel argument) runs out of fuel. *)
Inductive result (A : Type) : Type :=
| Ok (a : A)
| Raise (e : exn)
| OutOfFuel.

Arguments Ok {A} a.
Arguments Raise {A} e.
Arguments OutOfFuel {A}.

Definition bind {A B : Type} (r : result A) (k : A -> result B) : result B :=
  match r with
  | Ok a => k a
  | Raise e => Raise e
  | OutOfFuel => OutOfFuel
  end.

Notation "x <- r ;; k" := (bind r (fun x => k))
  (at level 61, r at next level, right associativity).

(* ================================================================= *)
(** ** Python string and list primitives *)

Definition newline : ascii := ascii_of_nat 10.

(** [s.startswith(p)] *)
Definition startswith (s p : string) : bool := String.prefix p s.

(** [s[n:]] for [n >= 0] *)
Fixpoint drop (n : nat) (s : string) : string :=
  match n, s with
  | O, _ => s
  | S n', String _ s' => drop n' s'
  | S _, "" => ""
  end.

(** The scan of [s.split(sep)] for a non-empty [sep]: the pieces between the
    non-overlapping occurrences of [sep], found left to right.  [skip] counts
    the characters of an occurrence that are still to be passed over. *)
Fixpoint split_from (sep : string) (skip : nat) (s : string) : list string :=
  match s with
  | "" => [""]
  | String c s' =>
      match skip with
      | S k => split_from sep k s'
      | O =>
          if startswith s sep
          then "" :: split_from sep (String.length sep - 1) s'
          else match split_from sep 0 s' with
               | piece :: pieces => String c piece :: pieces
               | [] => [String c ""]
               end
      end
  end.

(** [s.split(sep)]; an empty separator raises [ValueError]. *)
Definition split (s sep : string) : result (list string) :=
  if String.eqb sep "" then Raise ValueError else Ok (split_from sep 0 s).

(** [sep.join(xs)] *)
Fixpoint join (sep : string) (xs : list string) : string :=
  match xs with
  | [] => ""
  | x :: rest =>
      match rest with
      | [] => x
      | _ :: _ => x ++ sep ++ join sep rest
      end
  end.

(** [xs[i]] for [i >= 0] *)
Definition index {A : Type} (xs : list A) (i : nat) : result A :=
  match nth_error xs i with
  | Some x => Ok x
  | None => Raise IndexError
  end.

(** [xs[:n]] for any integer [n]: a negative [n] counts from the end. *)
Definition slice_to {A : Type} (xs : list A) (n : Z) : list A :=
  if (n <? 0)%Z
  then firstn (Z.to_nat (Z.of_nat (List.length xs) + n)) xs
  else firstn (Z.to_nat n) xs.

Fixpoint lstrip_by (p : ascii -> bool) (s : string) : string :=
  match s with
  | "" => ""
  | String c s' => if p c then lstrip_by p s' else s
  end.

Fixpoint rstrip_by (p : ascii -> bool) (s : string) : string :=
  match s with
  | "" => ""
  | String c s' =>
      match rstrip_by p s' with
      | "" => if p c then "" else String c ""
      | String _ _ as r => String c r
      end
  end.

Definition strip_by (p : ascii -> bool) (s : string) : string :=
  rstrip_by p (lstrip_by p s).

Fixpoint mem_char (c : ascii) (chars : string) : bool :=
  match chars with
  | "" => false
  | String d chars' => Ascii.eqb c d || mem_char c chars'
  end.

(** [s.strip(chars)] *)
Definition strip_chars (chars s : string) : string :=
  strip_by (fun c => mem_char c chars) s.

(** [c.isspace()] on the code points below 256. *)
Definition isspace (c : ascii) : bool :=
  let n := nat_of_ascii c in
  ((9 <=? n)%nat && (n <=? 13)%nat) || ((28 <=? n)%nat && (n <=? 32)%nat)
  || (n =? 133)%nat || (n =? 160)%nat.

(** [s.strip()] *)
Definition strip (s : string) : string := strip_by isspace s.

(** [x in xs] for a list (or set) of strings *)
Definition mem_string (x : string) (xs : list string) : bool :=
  existsb (String.eqb x) xs.

(* ================================================================= *)
(** ** Flattening a section tree: [all_subsections_from_section] *)

Definition SECTIONS_TO_IGNORE : list string :=
  [ "See also"; "References"; "External links"; "Further reading";
    "Footnotes"; "Bibliography"; "Sources"; "Citations"; "Literature";
    "Footnotes"; "Notes and references"; "Photo gallery"; "Works cited";
    "Photos"; "Gallery"; "Notes"; "References and sources";
    "References and notes" ].

(** What the notebook uses of a [mwparserfromhell] [Wikicode] value. *)
Class WikicodeLib (Wikicode : Type) : Type := {
  (** [[str(h) for h in section.filter_headings()]] *)
  filter_headings : Wikicode -> list string;
  (** [str(section)] *)
  to_str : Wikicode -> string;
  (** [section.get_sections(levels=levels)] *)
  get_sections : Wikicode -> list Z -> list Wikicode
}.

(** A subsection: the titles from the page title down, and the section's own
    text. *)
Definition subsection : Type := (list string * string)%type.

(** [for x in xs: results.extend(f(x))] *)
Fixpoint extend_each {A B : Type} (f : A -> result (list B))
         (results : list B) (xs : list A) : result (list B) :=
  match xs with
  | [] => Ok results
  | x :: xs' => r <- f x ;; extend_each f (results ++ r) xs'
  end.

(** The heading test at the top of [all_subsections_from_section]:
    [title.strip("=" + " ") in sections_to_ignore]. *)
Definition ignored (sections_to_ignore : list string) (title : string) : bool :=
  mem_string (strip_chars "= " title) sections_to_ignore.

(** [all_subsections_from_section], by recursion on [fuel]: one unit per
    nesting level of the Python recursion. *)
Fixpoint all_subsections_from_section {Wikicode : Type} `{WikicodeLib Wikicode}
         (fuel : nat) (section : Wikicode) (parent_titles : list string)
         (sections_to_ignore : list string) : result (list subsection) :=
  match fuel with
  | O => OutOfFuel
  | S fuel' =>
      let headings := filter_headings section in
      title <- index headings 0 ;;
      if ignored sections_to_ignore title then Ok []
      else
        let titles := parent_titles ++ [title] in
        let full_text := to_str section in
        pieces <- split full_text title ;;
        section_text <- index pieces 1 ;;
        if (List.length headings =? 1)%nat then Ok [(titles, section_text)]
        else
          first_subtitle <- index headings 1 ;;
          pieces' <- split section_text first_subtitle ;;
          section_text' <- index pieces' 0 ;;
          extend_each
            (fun sub =>
               all_subsections_from_section fuel' sub titles sections_to_ignore)
            [(titles, section_text')]
            (get_sections section [(Z.of_nat (List.length titles) + 1)%Z])
  end.

(** A subsection emitted under [parent_titles] with no ignored heading on the
    way: its titles are the parent titles followed by one title or more, none
    of which is ignored. *)
Definition below_kept_headings (sections_to_ignore parent_titles : list string)
           (sub : subsection) : Prop :=
  exists below : list string,
    below <> []
    /\ fst sub = (parent_titles ++ below)%list
    /\ Forall (fun title => ignored sections_to_ignore title = false) below.

(* ================================================================= *)
(** ** Cleaning: [clean_section] *)

(** The tail [.*?</ref>] of the pattern, anchored at the head of [s]: the
    shortest run of characters other than a newline that is followed by
    [</ref>].  Returns the number of characters matched. *)
Fixpoint lazy_dots_then_close (s : string) {struct s} : option nat :=
  if startswith s "</ref>" then Some 6%nat
  else match s with
       | "" => None
       | String c s' =>
           if Ascii.eqb c newline then None
           else option_map S (lazy_dots_then_close s')
       end.

(** A match of [<ref.*?</ref>] anchored at the head of [s]: its length. *)
Definition match_ref (s : string) : option nat :=
  if startswith s "<ref"
  then option_map (Nat.add 4) (lazy_dots_then_close (drop 4 s))
  else None.

(** The scan of [re.sub(r"<ref.*?</ref>", "", s)]: leftmost matches, not
    overlapping; [skip] counts the characters of the current match that are
    still to be dropped. *)
Fixpoint sub_ref_from (skip : nat) (s : string) : string :=
  match s with
  | "" => ""
  | String c s' =>
      match skip with
      | S k => sub_ref_from k s'
      | O =>
          match match_ref s with
          | Some n => sub_ref_from (n - 1) s'
          | None => String c (sub_ref_from 0 s')
          end
      end
  end.

(** [re.sub(r"<ref.*?</ref>", "", text)] *)
Definition sub_ref (text : string) : string := sub_ref_from 0 text.

(** No position of [text] starts a match of the pattern. *)
Definition has_no_ref_match (text : string) : Prop :=
  forall k : nat, match_ref (drop k text) = None.

Definition clean_section (section : subsection) : subsection :=
  let '(titles, text) := section in
  let text := sub_ref text in
  let text := strip text in
  (titles, text).

(** [keep_section] *)
Definition keep_section (section : subsection) : bool :=
  let '(titles, text) := section in
  if (String.length text <? 16)%nat then false else true.

(* ================================================================= *)
(** ** Token counting, halving and splitting *)

(** A [tiktoken] encoding: [encoding.encode] and [encoding.decode]. *)
Record Encoding : Type := {
  encode : string -> list Z;
  decode : list Z -> string
}.

(** [tiktoken.encoding_for_model] *)
Class Tokenizer : Type := {
  encoding_for_model : string -> Encoding
}.

Definition GPT_MODEL : string := "gpt-4o-mini".

Definition NLNL : string := String newline (String newline "").
Definition NL : string := String newline "".

Section Splitter.

Context `{Tokenizer}.

(** [num_tokens(text, model)]; the notebook's default for [model] is
    [GPT_MODEL], written out at each call below that relies on it. *)
Definition num_tokens (text : string) (model : string) : Z :=
  let encoding := encoding_for_model model in
  Z.of_nat (List.length (encode encoding text)).

(** The [for i, chunk in enumerate(chunks)] loop of [halved_by_delimiter]:
    [pending] are the chunks still to be enumerated, [i] the index of the first
    of them.  Returns the value [i] has when the loop is left, by [break] or
    by exhaustion (where [i] keeps the last index). *)
Fixpoint scan_chunks (chunks : list string) (delimiter : string) (halfway : Z)
         (pending : list string) (i : nat) (best_diff : Z) : nat :=
  match pending with
  | [] => Nat.pred i
  | _ :: pending' =>
      let left := join delimiter (firstn (i + 1) chunks) in
      let left_tokens := num_tokens left GPT_MODEL in
      let diff := Z.abs (halfway - left_tokens) in
      if (diff >=? best_diff)%Z then i
      else scan_chunks chunks delimiter halfway pending' (S i) diff
  end.

(** The quantities the loop compares, as functions of the index: [diff] at
    index [j], how far the first [j + 1] chunks are from halfway. *)
Definition prefix_diff (chunks : list string) (delimiter : string) (halfway : Z)
           (j : nat) : Z :=
  Z.abs (halfway - num_tokens (join delimiter (firstn (j + 1) chunks)) GPT_MODEL).

(** [best_diff] when the loop reaches index [j], every earlier index having
    improved it: its initial value, or the [diff] of the index before. *)
Definition best_diff_before (chunks : list string) (delimiter : string)
           (halfway : Z) (j : nat) : Z :=
  match j with
  | O => halfway
  | S j' => prefix_diff chunks delimiter halfway j'
  end.

(** Index [j] strictly improves on [best_diff]. *)
Definition improves (chunks : list string) (delimiter : string) (halfway : Z)
           (j : nat) : Prop :=
  (prefix_diff chunks delimiter halfway j
   < best_diff_before chunks delimiter halfway j)%Z.

Definition halved_by_delimiter (string delimiter : String.string)
  : result (String.string * String.string) :=
  chunks <- split string delimiter ;;
  if (List.length chunks =? 1)%nat then Ok (string, "")
  else if (List.length chunks =? 2)%nat then
    left <- index chunks 0 ;; right <- index chunks 1 ;; Ok (left, right)
  else
    let total_tokens := num_tokens string GPT_MODEL in
    let halfway := (total_tokens / 2)%Z in
    let best_diff := halfway in
    let i := scan_chunks chunks delimiter halfway chunks 0 best_diff in
    let left := join delimiter (firstn i chunks) in
    let right := join delimiter (skipn i chunks) in
    Ok (left, right).

(** [truncated_string]; the warning it prints is not part of the value. *)
Definition truncated_string (string model : String.string) (max_tokens : Z)
  : String.string :=
  let encoding := encoding_for_model model in
  let encoded_string := encode encoding string in
  decode encoding (slice_to encoded_string max_tokens).

(** The [for delimiter in ...] loop of [split_strings_from_subsection]:
    [recurse] is the recursive call on one half, [truncated] the value of the
    final [return] reached when no delimiter gave two non-empty halves. *)
Fixpoint split_on_delimiters (recurse : string -> result (list string))
         (truncated : list string) (text : string) (delimiters : list string)
  : result (list string) :=
  match delimiters with
  | [] => Ok truncated
  | delimiter :: delimiters' =>
      halves <- halved_by_delimiter text delimiter ;;
      let left := fst halves in
      let right := snd halves in
      if String.eqb left "" || String.eqb right ""
      then split_on_delimiters recurse truncated text delimiters'
      else extend_each recurse [] [left; right]
  end.

(** [split_strings_from_subsection], by recursion on [fuel]: one unit per
    nesting level of the Python recursion. *)
Fixpoint split_strings_fuel (fuel : nat) (subsection : subsection)
         (max_tokens : Z) (model : string) (max_recursion : Z)
  : result (list string) :=
  match fuel with
  | O => OutOfFuel
  | S fuel' =>
      let '(titles, text) := subsection in
      let string := join NLNL (titles ++ [text]) in
      let num_tokens_in_string := num_tokens string GPT_MODEL in
      if (num_tokens_in_string <=? max_tokens)%Z then Ok [string]
      else if (max_recursion =? 0)%Z
      then Ok [truncated_string string model max_tokens]
      else
        split_on_delimiters
          (fun half =>
             split_strings_fuel fuel' (titles, half) max_tokens model
                                (max_recursion - 1)%Z)
          [truncated_string string model max_tokens]
          text [NLNL; NL; ". "]
  end.

(** [split_strings_from_subsection]: every recursive call is on a strictly
    shorter text, so one unit of fuel per character of [text], and one more,
    is enough for any [max_recursion], negative ones included. *)
Definition split_strings_from_subsection (subsection : subsection)
           (max_tokens : Z) (model : string) (max_recursion : Z)
  : result (list string) :=
  split_strings_fuel (S (String.length (snd subsection))) subsection
                     max_tokens model max_recursion.

(** The string [split_strings_from_subsection] composes from a subsection. *)
Definition candidate (titles : list string) (text : string) : string :=
  join NLNL (titles ++ [text]).


(** An element of the output of [split_strings_from_subsection]: within the
    budget as [num_tokens] counts it, or a value of [truncated_string] on the
    candidate of some text under the titles. *)
Definition within_budget_or_truncated (titles : list string) (max_tokens : Z)
           (model : string) (element : string) : Prop :=
  (num_tokens element GPT_MODEL <= max_tokens)%Z
  \/ exists text, element = truncated_string (candidate titles text) model max_tokens.

End Splitter.

(* ================================================================= *)
(** ** Concrete instances of the two interfaces

    Small executable instances, used to run the functions above on concrete
    inputs. *)

(** One token per character, whatever the model: the token is the code point. *)
Definition char_encoding : Encoding := {|
  encode := fun s => map (fun c => Z.of_nat (nat_of_ascii c)) (list_ascii_of_string s);
  decode := fun ts => string_of_list_ascii (map (fun t => ascii_of_nat (Z.to_nat t)) ts)
|}.

Definition char_tokenizer : Tokenizer := {|
  encoding_for_model := fun _ => char_encoding
|}.

(** A section as a tree: its heading line, the text below the heading and
    before the first nested heading, and the nested sections. *)
#[warnings="-register-all"]
Inductive SectionTree : Type :=
| SectionNode (level : Z) (heading body : string) (children : list SectionTree).

Fixpoint tree_headings (t : SectionTree) : list string :=
  let 'SectionNode _ heading _ children := t in
  heading :: flat_map tree_headings children.

Fixpoint tree_str (t : SectionTree) : string :=
  let 'SectionNode _ heading body children := t in
  heading ++ body ++ String.concat "" (map tree_str children).

(** The sections of the given levels, the section itself included, in document
    order. *)
Fixpoint tree_sections (levels : list Z) (t : SectionTree) : list SectionTree :=
  let 'SectionNode level _ _ children := t in
  (if existsb (Z.eqb level) levels then [t] else [])
    ++ flat_map (tree_sections levels) children.

#[export] Instance SectionTree_lib : WikicodeLib SectionTree := {|
  filter_headings := tree_headings;
  to_str := tree_str;
  get_sections := fun t levels => tree_sections levels t
|}.

(** Example inputs. *)

(** ["p1\n\np2\n\np3\n\np4"] *)
Definition four_paragraphs : string :=
  "p1" ++ NLNL ++ "p2" ++ NLNL ++ "p3" ++ NLNL ++ "p4".

(** ["a\n\nb\n\ncccccccccc"] *)
Definition long_last_paragraph : string :=
  "a" ++ NLNL ++ "b" ++ NLNL ++ "cccccccccc".

(** A reference whose removal leaves the pieces of another one side by side. *)
Definition spliced_ref : string := "<re<ref></ref>f>x</ref>".

Definition references_tree : SectionTree :=
  SectionNode 2 "==References==" "x" [SectionNode 3 "===Sub===" "y" []].

Definition nested_tree : SectionTree :=
  SectionNode 2 "==A==" "short"
    [ SectionNode 3 "===B===" "bee" [];
      SectionNode 3 "===Notes===" "n" [SectionNode 4 "====Deep====" "d" []];
      SectionNode 3 "===C===" "cee" [SectionNode 4 "====D====" "dee" []] ].

(* ================================================================= *)
(** ** The rest of the notebook *)

(** [sep] occurs nowhere in [s]: no position of [s] starts with it. *)
Definition no_occurrence (sep s : string) : Prop :=
  forall k : nat, startswith (drop k s) sep = false.

(** The first occurrence of [sep] in [s]: the text before it and the text
    after it ([s.partition(sep)] without the separator), if there is one. *)
Fixpoint find_first (sep s : string) {struct s} : option (string * string) :=
  if startswith s sep then Some ("", drop (String.length sep) s)
  else match s with
       | "" => None
       | String c s' =>
           match find_first sep s' with
           | Some (before, after) => Some (String c before, after)
           | None => None
           end
       end.

(** The text of [s] up to the first occurrence of [sep], all of [s] if there
    is none. *)
Definition text_before (sep s : string) : string :=
  match find_first sep s with
  | Some (before, _) => before
  | None => s
  end.

(** *** Collecting page titles: [titles_from_category] *)

(** A member of a category, as [titles_from_category] tells them apart: a
    plain page ([type(cm) == mwclient.page.Page]), a category
    ([isinstance(cm, mwclient.listing.Category)]), or anything else (an image,
    say, whose class only inherits from [Page]). *)
Inductive Member (Category : Type) : Type :=
| PageMember (name : string)
| CategoryMember (name : string) (category : Category)
| OtherMember (name : string).

Arguments PageMember {Category} name.
Arguments CategoryMember {Category} name category.
Arguments OtherMember {Category} name.

(** [category.members()] *)
Class MwClient (Category : Type) : Type := {
  members : Category -> list (Member Category)
}.

(** The [for cm in category.members()] loop of [titles_from_category];
    [recurse] is the recursive call on a subcategory.  The Python [set] of
    titles is a list without duplicates. *)
Fixpoint collect_titles {Category : Type}
         (recurse : Category -> result (list string)) (max_depth : Z)
         (cms : list (Member Category)) (titles : list string)
  : result (list string) :=
  match cms with
  | [] => Ok titles
  | cm :: cms' =>
      match cm with
      | PageMember name =>
          collect_titles recurse max_depth cms' (set_add string_dec name titles)
      | CategoryMember _ category =>
          if (max_depth >? 0)%Z then
            deeper_titles <- recurse category ;;
            collect_titles recurse max_depth cms'
                           (set_union string_dec titles deeper_titles)
          else collect_titles recurse max_depth cms' titles
      | OtherMember _ => collect_titles recurse max_depth cms' titles
      end
  end.

Fixpoint titles_from_category_fuel {Category : Type} `{MwClient Category}
         (fuel : nat) (category : Category) (max_depth : Z)
  : result (list string) :=
  match fuel with
  | O => OutOfFuel
  | S fuel' =>
      collect_titles
        (fun cm => titles_from_category_fuel fuel' cm (max_depth - 1)%Z)
        max_depth (members category) []
  end.

(** [titles_from_category]: the recursion goes [max_depth] levels down at
    most, and not at all for [max_depth <= 0]. *)
Definition titles_from_category {Category : Type} `{MwClient Category}
           (category : Category) (max_depth : Z) : result (list string) :=
  titles_from_category_fuel (S (Z.to_nat max_depth)) category max_depth.

(** A plain page called [title] lies in [category] or in a subcategory at most
    [depth] levels below it. *)
Fixpoint page_within {Category : Type} `{MwClient Category}
         (depth : nat) (category : Category) (title : string) : Prop :=
  In (PageMember title) (members category)
  \/ match depth with
     | O => False
     | S depth' =>
         exists name sub,
           In (CategoryMember name sub) (members category)
           /\ page_within depth' sub title
     end.

(** *** The sections of a page: [all_subsections_from_title] *)

(** [all_subsections_from_title]; [parsed_text] is the page text that the
    function downloads for [title] and parses, [fuel] bounds the nesting of
    the sections as in [all_subsections_from_section]. *)
Definition all_subsections_from_title {Wikicode : Type} `{WikicodeLib Wikicode}
           (fuel : nat) (parsed_text : Wikicode) (title : string)
           (sections_to_ignore : list string) : result (list subsection) :=
  let headings := filter_headings parsed_text in
  summary_text <-
    match headings with
    | first_heading :: _ =>
        pieces <- split (to_str parsed_text) first_heading ;; index pieces 0
    | [] => Ok (to_str parsed_text)
    end ;;
  let results := [([title], summary_text)] in
  extend_each
    (fun subsection =>
       all_subsections_from_section fuel subsection [title] sections_to_ignore)
    results (get_sections parsed_text [2%Z]).

(** *** Cleaning, filtering and splitting all sections *)

(** [[clean_section(ws) for ws in wikipedia_sections]] followed by
    [[ws for ws in wikipedia_sections if keep_section(ws)]]. *)
Definition cleaned_and_kept (wikipedia_sections : list subsection)
  : list subsection :=
  filter keep_section (map clean_section wikipedia_sections).

Definition MAX_TOKENS : Z := 1600.

(** The loop that fills [wikipedia_strings]; [model] and [max_recursion] keep
    their defaults, [GPT_MODEL] and [5]. *)
Definition split_sections `{Tokenizer} (wikipedia_sections : list subsection)
  : result (list string) :=
  extend_each
    (fun section => split_strings_from_subsection section MAX_TOKENS GPT_MODEL 5)
    [] wikipedia_sections.


(** *** Embedding in batches *)

Definition BATCH_SIZE : nat := 1000.

(** [range(start, ...)] with a step: [count] values from [start] on. *)
Fixpoint range_steps (count start step : nat) : list nat :=
  match count with
  | O => []
  | S count' => start :: range_steps count' (start + step) step
  end.

(** [range(0, stop, step)] for [step > 0]. *)
Definition range_by (stop step : nat) : list nat :=
  range_steps ((stop + step - 1) / step) 0 step.

(** [xs[a:b]] for [0 <= a <= b] *)
Definition slice {A : Type} (xs : list A) (a b : nat) : list A :=
  firstn (b - a) (skipn a xs).

(** How the embedding loop ends: with all embeddings, or at the [assert]. *)
Inductive embedded (Embedding : Type) : Type :=
| Embedded (requests : list (list string)) (embeddings : list Embedding)
| AssertionError.

Arguments Embedded {Embedding} requests embeddings.
Arguments AssertionError {Embedding}.

Section Embed.

Variable Embedding : Type.

(** [client.embeddings.create(model=EMBEDDING_MODEL, input=batch).data]: the
    items of the response, each with its [index] and its [embedding]. *)
Variable create : list string -> list (nat * Embedding).

(** [for i, be in enumerate(response.data): assert i == be.index] *)
Fixpoint in_order (i : nat) (data : list (nat * Embedding)) : bool :=
  match data with
  | [] => true
  | be :: data' => (i =? fst be)%nat && in_order (S i) data'
  end.

(** The loop over the batches; [requests] records the batches sent. *)
Fixpoint embed_batches (wikipedia_strings : list string)
         (batch_starts : list nat) (requests : list (list string))
         (embeddings : list Embedding) : embedded Embedding :=
  match batch_starts with
  | [] => Embedded requests embeddings
  | batch_start :: batch_starts' =>
      let batch_end := (batch_start + BATCH_SIZE)%nat in
      let batch := slice wikipedia_strings batch_start batch_end in
      let response := create batch in
      if in_order 0 response then
        let batch_embeddings := map snd response in
        embed_batches wikipedia_strings batch_starts'
                      (requests ++ [batch]) (embeddings ++ batch_embeddings)
      else AssertionError
  end.

Definition embed_strings (wikipedia_strings : list string)
  : embedded Embedding :=
  embed_batches wikipedia_strings
                (range_by (List.length wikipedia_strings) BATCH_SIZE) [] [].

End Embed.

(** One token per character other than a line break; line breaks carry no
    token of their own. *)
Definition visible_encoding : Encoding := {|
  encode := fun s =>
    map (fun c => Z.of_nat (nat_of_ascii c))
        (filter (fun c => negb (Ascii.eqb c newline)) (list_ascii_of_string s));
  decode := fun ts =>
    string_of_list_ascii (map (fun t => ascii_of_nat (Z.to_nat t)) ts)
|}.

Definition visible_tokenizer : Tokenizer := {|
  encoding_for_model := fun _ => visible_encoding
|}.

(** A parsed page: the lead text and the top-level sections, or one of its
    sections. *)
Inductive PageTree : Type :=
| PageText (lead : string) (sections : list SectionTree)
| PageSection (section : SectionTree).

#[export] Instance PageTree_lib : WikicodeLib PageTree := {|
  filter_headings := fun p =>
    match p with
    | PageText _ sections => flat_map tree_headings sections
    | PageSection section => tree_headings section
    end;
  to_str := fun p =>
    match p with
    | PageText lead sections =>
        (lead ++ String.concat "" (map tree_str sections))%string
    | PageSection section => tree_str section
    end;
  get_sections := fun p levels =>
    match p with
    | PageText _ sections =>
        map PageSection (flat_map (tree_sections levels) sections)
    | PageSection section => map PageSection (tree_sections levels section)
    end
|}.

Definition example_page : PageTree :=
  PageText "Intro." [nested_tree; references_tree].



Definition tree_level (t : SectionTree) : Z :=
  let 'SectionNode level _ _ _ := t in level.

Definition tree_heading (t : SectionTree) : string :=
  let 'SectionNode _ heading _ _ := t in heading.

Definition tree_children (t : SectionTree) : list SectionTree :=
  let 'SectionNode _ _ _ children := t in children.

(** Heading levels grow from every section to the sections nested in it. *)
#[warnings="-register-all"]
Inductive well_nested : SectionTree -> Prop :=
| well_nested_node (level : Z) (heading body : string)
                   (children : list SectionTree) :
    Forall (fun c => (level < tree_level c)%Z /\ well_nested c) children ->
    well_nested (SectionNode level heading body children).

(** The headings from a section down to a section nested in it, each one
    directly nested in the one before, none of them ignored. *)
Inductive kept_chain (sections_to_ignore : list string)
  : SectionTree -> list string -> Prop :=
| kept_chain_here (t : SectionTree) :
    ignored sections_to_ignore (tree_heading t) = false ->
    kept_chain sections_to_ignore t [tree_heading t]
| kept_chain_nested (t c : SectionTree) (headings : list string) :
    ignored sections_to_ignore (tree_heading t) = false ->
    In c (tree_children t) ->
    kept_chain sections_to_ignore c headings ->
    kept_chain sections_to_ignore t (tree_heading t :: headings).

(** Categories as a tree, to run [titles_from_category]. *)
#[warnings="-register-all"]
Inductive CategoryTree : Type :=
| CategoryNode (cms : list (Member CategoryTree)).

#[export] Instance CategoryTree_client : MwClient CategoryTree := {|
  members := fun c => let 'CategoryNode cms := c in cms
|}.

Definition olympics_category : CategoryTree :=
  CategoryNode
    [ PageMember "2022 Winter Olympics";
      OtherMember "File:Logo.svg";
      CategoryMember "Category:Venues"
        (CategoryNode
           [ PageMember "Beijing National Stadium";
             PageMember "2022 Winter Olympics";
             CategoryMember "Category:Ice rinks"
               (CategoryNode [PageMember "Capital Indoor Stadium"]) ]) ].

(* ================================================================= *)
(** * Properties *)

Open Scope string_scope.

(** ** Strings: prefixes, [split] and [join] *)

Lemma startswith_app (p r : string) : startswith (p ++ r) p = true.
Proof.
  unfold startswith. induction p as [|c p IH]; simpl.
  - now destruct r.
  - destruct (ascii_dec c c) as [_|ne]; [exact IH | now elim ne].
Qed.

Lemma startswith_inv (s p : string) :
  startswith s p = true -> exists r, s = p ++ r.
Proof.
  unfold startswith. revert s. induction p as [|c p IH]; intros s; simpl.
  - now exists s.
  - destruct s as [|d s]; simpl; [discriminate|].
    destruct (ascii_dec c d) as [e|_]; [subst d|discriminate].
    intros Hs. destruct (IH _ Hs) as [r Hr]. subst s. now exists r.
Qed.

Arguments startswith : simpl never.

Lemma string_length_app (s t : string) :
  String.length (s ++ t) = (String.length s + String.length t)%nat.
Proof. induction s; simpl; congruence. Qed.

Lemma app_assoc_string (s t u : string) : (s ++ t) ++ u = s ++ t ++ u.
Proof. induction s; simpl; congruence. Qed.

Lemma app_empty_r (s : string) : s ++ "" = s.
Proof. induction s; simpl; congruence. Qed.

Lemma split_from_not_nil (sep : string) (skip : nat) (s : string) :
  split_from sep skip s <> [].
Proof.
  revert skip. induction s as [|c s IH]; intros skip; simpl; [discriminate|].
  destruct skip; [|apply IH].
  destruct (startswith _ _); [discriminate|].
  destruct (split_from sep 0 s); discriminate.
Qed.

(** Passing over the rest of an occurrence resumes the scan behind it. *)
Lemma split_from_skip (sep pre r : string) :
  split_from sep (String.length pre) (pre ++ r) = split_from sep 0 r.
Proof. induction pre as [|c pre IH]; simpl; [reflexivity | exact IH]. Qed.

Lemma join_cons (sep x y : string) (ys : list string) :
  join sep (x :: y :: ys) = x ++ sep ++ join sep (y :: ys).
Proof. reflexivity. Qed.

Lemma join_split_from_bounded (sep : string) (n : nat) :
  sep <> "" ->
  forall s, (String.length s <= n)%nat -> join sep (split_from sep 0 s) = s.
Proof.
  intros Hsep. induction n as [|n IH]; intros s Hlen.
  - destruct s; [reflexivity | simpl in Hlen; lia].
  - destruct s as [|c s]; [reflexivity|].
    simpl split_from. destruct (startswith (String c s) sep) eqn:Hpre.
    + destruct (startswith_inv _ _ Hpre) as [r Hr].
      destruct sep as [|d sep]; [now elim Hsep|].
      simpl in Hr. injection Hr as <- ->.
      replace (String.length (String c sep) - 1)%nat with (String.length sep)
        by (simpl; lia).
      rewrite split_from_skip.
      pose proof (split_from_not_nil (String c sep) 0 r) as Hne.
      destruct (split_from (String c sep) 0 r) as [|y ys] eqn:Hsp; [now elim Hne|].
      rewrite join_cons, <- Hsp, IH.
      * reflexivity.
      * simpl in Hlen. rewrite string_length_app in Hlen. lia.
    + pose proof (split_from_not_nil sep 0 s) as Hne.
      assert (Hs : join sep (split_from sep 0 s) = s)
        by (apply IH; simpl in Hlen; lia).
      destruct (split_from sep 0 s) as [|y ys]; [now elim Hne|].
      destruct ys; simpl in *; congruence.
Qed.

(** [sep.join(s.split(sep)) == s] *)
Lemma join_split (s sep : string) (chunks : list string) :
  split s sep = Ok chunks -> join sep chunks = s.
Proof.
  unfold split. destruct (String.eqb sep "") eqn:E; [discriminate|].
  intros [= <-]. apply join_split_from_bounded with (n := String.length s).
  - intros ->. discriminate.
  - lia.
Qed.

Lemma split_not_nil (s sep : string) (chunks : list string) :
  split s sep = Ok chunks -> chunks <> [].
Proof.
  unfold split. destruct (String.eqb sep ""); [discriminate|].
  intros [= <-]. apply split_from_not_nil.
Qed.

Lemma split_ok (s sep : string) :
  sep <> "" -> split s sep = Ok (split_from sep 0 s).
Proof.
  intros Hsep. unfold split. destruct (String.eqb_spec sep ""); [contradiction | reflexivity].
Qed.

Lemma join_app (sep : string) (xs ys : list string) :
  xs <> [] -> ys <> [] ->
  join sep (xs ++ ys) = join sep xs ++ sep ++ join sep ys.
Proof.
  intros Hxs Hys. induction xs as [|x xs IH]; [now elim Hxs|].
  destruct xs as [|x' xs].
  - destruct ys; [now elim Hys | reflexivity].
  - change ((x :: x' :: xs) ++ ys)%list with (x :: x' :: (xs ++ ys))%list.
    rewrite !join_cons. change (x' :: xs ++ ys)%list with ((x' :: xs) ++ ys)%list.
    rewrite IH by discriminate. now rewrite !app_assoc_string.
Qed.

Lemma join_nil_nonempty (sep : string) (xs : list string) :
  join sep xs <> "" -> xs <> [].
Proof. intros Hj ->. now apply Hj. Qed.

(** Cutting the chunks at any position and joining the two sides with the
    delimiter gives back the joined whole, whenever both sides have chunks. *)
Lemma join_firstn_skipn (sep : string) (i : nat) (chunks : list string) :
  firstn i chunks <> [] -> skipn i chunks <> [] ->
  join sep (firstn i chunks) ++ sep ++ join sep (skipn i chunks) = join sep chunks.
Proof.
  intros H1 H2. rewrite <- join_app by assumption. now rewrite firstn_skipn.
Qed.

(* ================================================================= *)
(** ** Halving *)

Section HalvingProperties.

Context `{Tokenizer}.

Lemma num_tokens_nonneg (text model : string) : (0 <= num_tokens text model)%Z.
Proof. unfold num_tokens. lia. Qed.

(** The three branches of [halved_by_delimiter], by the number of chunks. *)
Lemma halved_by_delimiter_chunks (string delimiter : String.string)
      (chunks : list String.string) :
  split string delimiter = Ok chunks ->
  halved_by_delimiter string delimiter =
  match chunks with
  | [_] => Ok (string, "")
  | [a; b] => Ok (a, b)
  | _ =>
      let halfway := (num_tokens string GPT_MODEL / 2)%Z in
      let i := scan_chunks chunks delimiter halfway chunks 0 halfway in
      Ok (join delimiter (firstn i chunks), join delimiter (skipn i chunks))
  end.
Proof.
  intros Hsplit. unfold halved_by_delimiter. rewrite Hsplit. cbn [bind].
  destruct chunks as [|a [|b [|c rest]]]; reflexivity.
Qed.

Lemma halved_by_delimiter_ok (string delimiter : String.string) :
  delimiter <> "" ->
  exists left right, halved_by_delimiter string delimiter = Ok (left, right).
Proof.
  intros Hd. rewrite (halved_by_delimiter_chunks _ _ _ (split_ok string _ Hd)).
  destruct (split_from delimiter 0 string) as [|a [|b [|c rest]]]; eauto.
Qed.

(** Two non-empty halves are the joined chunks before and from some position,
    with chunks on both sides. *)
Lemma halved_by_delimiter_cut (string delimiter left right : String.string) :
  halved_by_delimiter string delimiter = Ok (left, right) ->
  left <> "" -> right <> "" ->
  exists chunks i,
    split string delimiter = Ok chunks
    /\ firstn i chunks <> [] /\ skipn i chunks <> []
    /\ left = join delimiter (firstn i chunks)
    /\ right = join delimiter (skipn i chunks).
Proof.
  intros Hhalved Hleft Hright.
  destruct (split string delimiter) as [chunks| |] eqn:Hsplit;
    try (unfold halved_by_delimiter in Hhalved; rewrite Hsplit in Hhalved;
         discriminate).
  rewrite (halved_by_delimiter_chunks _ _ _ Hsplit) in Hhalved.
  exists chunks.
  destruct chunks as [|a [|b [|c rest]]].
  - cbv zeta in Hhalved. injection Hhalved as <- <-. now elim Hleft.
  - injection Hhalved as <- <-. now elim Hright.
  - injection Hhalved as <- <-. exists 1%nat. repeat split; discriminate.
  - cbv zeta in Hhalved. injection Hhalved as <- <-.
    eexists. split; [reflexivity|].
    split; [eapply join_nil_nonempty; eassumption|].
    split; [eapply join_nil_nonempty; eassumption|].
    split; reflexivity.
Qed.

(** Each of two non-empty halves is strictly shorter than the string. *)
Lemma halved_by_delimiter_shorter (string delimiter left right : String.string) :
  halved_by_delimiter string delimiter = Ok (left, right) ->
  left <> "" -> right <> "" ->
  (String.length left < String.length string)%nat
  /\ (String.length right < String.length string)%nat.
Proof.
  intros Hhalved Hleft Hright.
  destruct (halved_by_delimiter_cut _ _ _ _ Hhalved Hleft Hright)
    as (chunks & i & Hsplit & Hfirst & Hskip & Hl & Hr).
  pose proof (join_firstn_skipn delimiter i chunks Hfirst Hskip) as Hcut.
  rewrite (join_split _ _ _ Hsplit), <- Hl, <- Hr in Hcut.
  rewrite <- Hcut, !string_length_app.
  destruct left; [now elim Hleft|]. destruct right; [now elim Hright|].
  simpl. lia.
Qed.

(** *** The scan for the halfway point *)

Section Scan.

Variables (chunks : list string) (delimiter : string) (halfway : Z).

Let diff : nat -> Z := prefix_diff chunks delimiter halfway.
Let best : nat -> Z := best_diff_before chunks delimiter halfway.

Lemma scan_chunks_step (c : string) (pending : list string) (i : nat) :
  scan_chunks chunks delimiter halfway (c :: pending) i (best i) =
  if (diff i >=? best i)%Z then i
  else scan_chunks chunks delimiter halfway pending (S i) (best (S i)).
Proof. reflexivity. Qed.

(** The loop is left at the first index that does not improve. *)
Lemma scan_chunks_break (pending : list string) :
  forall i k : nat,
    (i <= k < i + List.length pending)%nat ->
    (forall j, (i <= j < k)%nat -> improves chunks delimiter halfway j) ->
    ~ improves chunks delimiter halfway k ->
    scan_chunks chunks delimiter halfway pending i (best i) = k.
Proof.
  unfold improves. fold diff best.
  induction pending as [|c pending IH]; intros i k Hk Himp Hstop;
    [simpl in Hk; lia|].
  rewrite scan_chunks_step, Z.geb_leb.
  destruct (Z.leb_spec (best i) (diff i)) as [Hge|Hlt].
  - destruct (Nat.eq_dec i k) as [|Hne]; [assumption|].
    specialize (Himp i ltac:(lia)). lia.
  - destruct (Nat.eq_dec i k) as [->|Hne]; [lia|].
    apply IH; [simpl in Hk; lia | intros j Hj; apply Himp; lia | assumption].
Qed.

(** When every index improves, the loop runs out and [i] keeps the last index. *)
Lemma scan_chunks_exhaust (pending : list string) :
  forall i : nat,
    (forall j, (i <= j < i + List.length pending)%nat ->
               improves chunks delimiter halfway j) ->
    scan_chunks chunks delimiter halfway pending i (best i)
    = Nat.pred (i + List.length pending).
Proof.
  unfold improves. fold diff best.
  induction pending as [|c pending IH]; intros i Himp.
  - simpl. f_equal. lia.
  - rewrite scan_chunks_step, Z.geb_leb.
    destruct (Z.leb_spec (best i) (diff i)) as [Hge|Hlt].
    + specialize (Himp i ltac:(simpl; lia)). lia.
    + rewrite IH; [simpl; f_equal; lia | intros j Hj; apply Himp; simpl; lia].
Qed.

End Scan.

Lemma firstn_pred_length {A : Type} (xs : list A) :
  firstn (Nat.pred (List.length xs)) xs = removelast xs.
Proof.
  induction xs as [|x [|y xs] IH]; try reflexivity.
  change (Nat.pred (List.length (x :: y :: xs))) with (S (Nat.pred (List.length (y :: xs)))).
  cbn [firstn]. rewrite IH. reflexivity.
Qed.

Lemma skipn_pred_length {A : Type} (xs : list A) (d : A) :
  xs <> [] -> skipn (Nat.pred (List.length xs)) xs = [last xs d].
Proof.
  induction xs as [|x [|y xs] IH]; intros Hne; [now elim Hne | reflexivity |].
  change (Nat.pred (List.length (x :: y :: xs))) with (S (Nat.pred (List.length (y :: xs)))).
  cbn [skipn]. rewrite IH by discriminate. reflexivity.
Qed.

(** [halved_by_delimiter] on three chunks or more, in terms of the scan. *)
Lemma halved_by_delimiter_scanned (string delimiter : String.string)
      (chunks : list String.string) :
  split string delimiter = Ok chunks ->
  (3 <= List.length chunks)%nat ->
  let halfway := (num_tokens string GPT_MODEL / 2)%Z in
  let i := scan_chunks chunks delimiter halfway chunks 0 halfway in
  halved_by_delimiter string delimiter
  = Ok (join delimiter (firstn i chunks), join delimiter (skipn i chunks)).
Proof.
  intros Hsplit Hlen. rewrite (halved_by_delimiter_chunks _ _ _ Hsplit).
  destruct chunks as [|a [|b [|c rest]]]; simpl in Hlen; try lia. reflexivity.
Qed.

(** The last index never improves once all the earlier ones have: its prefix
    is the whole string, which is at least as far from halfway as the initial
    [best_diff].  So the loop of [halved_by_delimiter] is always left by
    [break], at the last index at the latest. *)
Lemma last_index_does_not_improve (string delimiter : String.string)
      (chunks : list String.string) :
  split string delimiter = Ok chunks ->
  let halfway := (num_tokens string GPT_MODEL / 2)%Z in
  (forall j, (S j < List.length chunks)%nat -> improves chunks delimiter halfway j) ->
  ~ improves chunks delimiter halfway (Nat.pred (List.length chunks)).
Proof.
  intros Hsplit halfway Himp.
  assert (Hbest : forall j, (j < List.length chunks)%nat ->
                    (best_diff_before chunks delimiter halfway j <= halfway)%Z).
  { induction j as [|j IH]; intros Hj; simpl; [lia|].
    specialize (Himp j Hj). unfold improves in Himp.
    specialize (IH ltac:(lia)). lia. }
  pose proof (split_not_nil _ _ _ Hsplit) as Hne.
  assert (Hlast : (Nat.pred (List.length chunks) < List.length chunks)%nat)
    by (destruct chunks; [now elim Hne | simpl; lia]).
  specialize (Hbest _ Hlast). unfold improves, prefix_diff.
  replace (Nat.pred (List.length chunks) + 1)%nat with (List.length chunks) by lia.
  rewrite firstn_all, (join_split _ _ _ Hsplit).
  pose proof (num_tokens_nonneg string GPT_MODEL) as Hpos. fold halfway.
  assert (2 * halfway <= num_tokens string GPT_MODEL)%Z
    by (apply Z.mul_div_le; lia).
  lia.
Qed.

(** *** The claims about [halved_by_delimiter] *)

(** C6: whenever [halved_by_delimiter string delimiter] returns two non-empty
    halves, [left + delimiter + right] is the original string. *)
Theorem halved_by_delimiter_lossless
        (string delimiter left right : String.string) :
  halved_by_delimiter string delimiter = Ok (left, right) ->
  left <> "" -> right <> "" ->
  left ++ delimiter ++ right = string.
Proof.
  intros Hhalved Hleft Hright.
  destruct (halved_by_delimiter_cut _ _ _ _ Hhalved Hleft Hright)
    as (chunks & i & Hsplit & Hfirst & Hskip & -> & ->).
  rewrite join_firstn_skipn by assumption.
  exact (join_split _ _ _ Hsplit).
Qed.

(** C4: with three chunks or more, the scan stops at the first index [i] whose
    [diff] does not strictly improve on [best_diff], and the halves are the
    chunks before [i] and the chunks from [i] on.  In particular, when every
    index before the last improves (as in a scan that never fails to improve),
    the right half is the last chunk alone. *)
Theorem halved_by_delimiter_splits_at_first_non_improvement
        (string delimiter : String.string) (chunks : list String.string) :
  split string delimiter = Ok chunks ->
  (3 <= List.length chunks)%nat ->
  let halfway := (num_tokens string GPT_MODEL / 2)%Z in
  (forall i : nat,
      (i < List.length chunks)%nat ->
      (forall j, (j < i)%nat -> improves chunks delimiter halfway j) ->
      ~ improves chunks delimiter halfway i ->
      halved_by_delimiter string delimiter
      = Ok (join delimiter (firstn i chunks), join delimiter (skipn i chunks)))
  /\ ((forall j, (S j < List.length chunks)%nat ->
                 improves chunks delimiter halfway j) ->
      halved_by_delimiter string delimiter
      = Ok (join delimiter (removelast chunks), last chunks "")).
Proof.
  intros Hsplit Hlen halfway.
  pose proof (halved_by_delimiter_scanned _ _ _ Hsplit Hlen) as Hscan.
  cbv zeta in Hscan. fold halfway in Hscan.
  assert (Hstop : forall i : nat,
             (i < List.length chunks)%nat ->
             (forall j, (j < i)%nat -> improves chunks delimiter halfway j) ->
             ~ improves chunks delimiter halfway i ->
             scan_chunks chunks delimiter halfway chunks 0 halfway = i).
  { intros i Hi Himp Hfail.
    apply (scan_chunks_break chunks delimiter halfway chunks 0 i);
      [lia | intros j Hj; apply Himp; lia | assumption]. }
  split.
  - intros i Hi Himp Hfail. rewrite Hscan, (Hstop i Hi Himp Hfail). reflexivity.
  - intros Himp.
    rewrite Hscan, (Hstop (Nat.pred (List.length chunks))).
    + rewrite firstn_pred_length, (skipn_pred_length chunks "").
      * reflexivity.
      * intros ->. simpl in Hlen. lia.
    + lia.
    + intros j Hj. apply Himp. lia.
    + now apply last_index_does_not_improve.
Qed.

(** C10: when the empty string has no tokens, there is a string with the
    delimiter in it twice, so with three chunks, whose first chunk has no
    tokens; the scan stops at index 0, the left half is empty, and the loop
    over the delimiters in [split_strings_from_subsection] goes on to the next
    delimiter. *)
Theorem halved_by_delimiter_empty_left_despite_delimiter :
  num_tokens "" GPT_MODEL = 0%Z ->
  exists (string first : String.string) (others : list String.string),
    split string NLNL = Ok (first :: others)
    /\ (3 <= List.length (first :: others))%nat
    /\ startswith string NLNL = true
    /\ num_tokens first GPT_MODEL = 0%Z
    /\ (let halfway := (num_tokens string GPT_MODEL / 2)%Z in
        scan_chunks (first :: others) NLNL halfway (first :: others) 0 halfway
        = 0%nat)
    /\ halved_by_delimiter string NLNL = Ok ("", string)
    /\ forall recurse truncated delimiters,
        split_on_delimiters recurse truncated string (NLNL :: delimiters)
        = split_on_delimiters recurse truncated string delimiters.
Proof.
  intros Hempty.
  set (string := NLNL ++ "a" ++ NLNL ++ "b").
  assert (Hsplit : split string NLNL = Ok [""; "a"; "b"]) by reflexivity.
  assert (Hscan : let halfway := (num_tokens string GPT_MODEL / 2)%Z in
                  scan_chunks [""; "a"; "b"] NLNL halfway [""; "a"; "b"] 0 halfway
                  = 0%nat).
  { intros halfway.
    apply (scan_chunks_break [""; "a"; "b"] NLNL halfway [""; "a"; "b"] 0 0).
    - simpl. lia.
    - intros j Hj. lia.
    - unfold improves, prefix_diff, best_diff_before. simpl firstn. simpl join.
      rewrite Hempty.
      pose proof (num_tokens_nonneg string GPT_MODEL).
      assert (0 <= halfway)%Z by (apply Z.div_pos; lia). lia. }
  assert (Hhalved : halved_by_delimiter string NLNL = Ok ("", string)).
  { rewrite (halved_by_delimiter_scanned _ _ _ Hsplit) by (simpl; lia).
    cbv zeta in Hscan. rewrite Hscan. reflexivity. }
  exists string, "", ["a"; "b"].
  split; [exact Hsplit|].
  split; [simpl; lia|].
  split; [reflexivity|].
  split; [exact Hempty|].
  split; [exact Hscan|].
  split; [exact Hhalved|].
  intros recurse truncated delimiters.
  cbn [split_on_delimiters]. rewrite Hhalved. reflexivity.
Qed.

End HalvingProperties.

(* ================================================================= *)
(** ** Truncating and splitting *)

Section SplitterProperties.

Context `{Tokenizer}.

Lemma extend_each_two {A : Type} (f : A -> result (list string)) (x y : A)
      (a b : list string) :
  f x = Ok a -> f y = Ok b -> extend_each f [] [x; y] = Ok (a ++ b)%list.
Proof. intros Hx Hy. simpl. rewrite Hx. simpl. rewrite Hy. reflexivity. Qed.

(** The loop over the delimiters returns; its value is the truncated fallback
    or the results of [recurse] on two strictly shorter halves, one after the
    other. *)
Lemma split_on_delimiters_inv (Q R : list string -> Prop)
      (recurse : string -> result (list string)) (truncated : list string)
      (text : string) (delimiters : list string) :
  Forall (fun d => d <> "") delimiters ->
  Q truncated ->
  (forall half, (String.length half < String.length text)%nat ->
                exists a, recurse half = Ok a /\ R a) ->
  (forall a b, R a -> R b -> Q (a ++ b)%list) ->
  exists out,
    split_on_delimiters recurse truncated text delimiters = Ok out /\ Q out.
Proof.
  intros Hds Htrunc Hrec Hcat.
  induction Hds as [|d ds Hd _ IH]; [now exists truncated|].
  cbn [split_on_delimiters].
  destruct (halved_by_delimiter_ok text d Hd) as (left & right & Hhalved).
  rewrite Hhalved. cbn [bind fst snd].
  destruct (String.eqb_spec left "") as [|Hleft]; [exact IH|].
  destruct (String.eqb_spec right "") as [|Hright]; [exact IH|].
  cbn [orb].
  destruct (halved_by_delimiter_shorter _ _ _ _ Hhalved Hleft Hright) as [Hl Hr].
  destruct (Hrec left Hl) as (a & Ha & HRa).
  destruct (Hrec right Hr) as (b & Hb & HRb).
  exists (a ++ b)%list. split; [now apply extend_each_two | now apply Hcat].
Qed.

(** Induction over the calls of [split_strings_from_subsection]: a property
    [P max_recursion strings] that holds of the one-element results (the
    candidate within budget, the truncated candidate) and is kept when the
    results for two halves, computed at [max_recursion - 1], are appended,
    holds of the result; and there is a result whenever [fuel] exceeds the
    length of the text. *)
Lemma split_strings_fuel_inv (P : Z -> list string -> Prop)
      (titles : list string) (max_tokens : Z) (model : string) :
  (forall m text,
      (num_tokens (candidate titles text) GPT_MODEL <= max_tokens)%Z ->
      P m [candidate titles text]) ->
  (forall m text,
      (max_tokens < num_tokens (candidate titles text) GPT_MODEL)%Z ->
      P m [truncated_string (candidate titles text) model max_tokens]) ->
  (forall m a b, m <> 0%Z -> P (m - 1)%Z a -> P (m - 1)%Z b -> P m (a ++ b)%list) ->
  forall fuel text max_recursion,
    (String.length text < fuel)%nat ->
    exists strings,
      split_strings_fuel fuel (titles, text) max_tokens model max_recursion
      = Ok strings
      /\ P max_recursion strings.
Proof.
  intros Hfit Htrunc Hcat.
  induction fuel as [|fuel IH]; intros text max_recursion Hfuel; [lia|].
  cbn [split_strings_fuel]. fold (candidate titles text).
  destruct (Z.leb_spec (num_tokens (candidate titles text) GPT_MODEL) max_tokens)
    as [Hle|Hgt].
  - eexists. split; [reflexivity | now apply Hfit].
  - destruct (Z.eqb_spec max_recursion 0) as [->|Hm].
    + eexists. split; [reflexivity | now apply Htrunc].
    + apply split_on_delimiters_inv with (R := P (max_recursion - 1)%Z).
      * repeat constructor; discriminate.
      * now apply Htrunc.
      * intros half Hhalf. apply IH. lia.
      * intros a b. now apply Hcat.
Qed.

(** [split_strings_from_subsection] returns, for every integer
    [max_recursion]. *)
Lemma split_strings_from_subsection_returns (subsection : subsection)
      (max_tokens : Z) (model : string) (max_recursion : Z) :
  exists strings,
    split_strings_from_subsection subsection max_tokens model max_recursion
    = Ok strings.
Proof.
  destruct subsection as [titles text]. unfold split_strings_from_subsection.
  destruct (split_strings_fuel_inv (fun _ _ => True) titles max_tokens model)
    with (fuel := S (String.length text)) (text := text)
         (max_recursion := max_recursion) as (strings & Hs & _); auto.
  now exists strings.
Qed.

(** The loop over the delimiters only calls [recurse] on strictly shorter
    strings. *)
Lemma split_on_delimiters_ext (f g : string -> result (list string))
      (truncated : list string) (text : string) (delimiters : list string) :
  Forall (fun d => d <> "") delimiters ->
  (forall half, (String.length half < String.length text)%nat -> f half = g half) ->
  split_on_delimiters f truncated text delimiters
  = split_on_delimiters g truncated text delimiters.
Proof.
  intros Hds Hfg. induction Hds as [|d ds Hd _ IH]; [reflexivity|].
  cbn [split_on_delimiters].
  destruct (halved_by_delimiter_ok text d Hd) as (left & right & Hhalved).
  rewrite Hhalved. cbn [bind fst snd].
  destruct (String.eqb_spec left "") as [|Hleft]; [exact IH|].
  destruct (String.eqb_spec right "") as [|Hright]; [exact IH|].
  destruct (halved_by_delimiter_shorter _ _ _ _ Hhalved Hleft Hright) as [Hl Hr].
  cbn [orb extend_each]. now rewrite (Hfg left Hl), (Hfg right Hr).
Qed.

(** Any fuel above the length of the text gives the same result: the value of
    [split_strings_from_subsection]. *)
Lemma split_strings_fuel_enough (titles : list string) (max_tokens : Z)
      (model : string) :
  forall fuel text max_recursion,
    (String.length text < fuel)%nat ->
    split_strings_fuel fuel (titles, text) max_tokens model max_recursion
    = split_strings_from_subsection (titles, text) max_tokens model max_recursion.
Proof.
  assert (Hstable : forall fuel fuel' text max_recursion,
             (String.length text < fuel)%nat ->
             (String.length text < fuel')%nat ->
             split_strings_fuel fuel (titles, text) max_tokens model max_recursion
             = split_strings_fuel fuel' (titles, text) max_tokens model
                                  max_recursion).
  { induction fuel as [|fuel IH]; intros fuel' text max_recursion Hf Hf'; [lia|].
    destruct fuel' as [|fuel']; [lia|].
    cbn [split_strings_fuel].
    destruct (_ <=? max_tokens)%Z; [reflexivity|].
    destruct (max_recursion =? 0)%Z; [reflexivity|].
    apply split_on_delimiters_ext.
    - repeat constructor; discriminate.
    - intros half Hhalf. apply IH; lia. }
  intros fuel text max_recursion Hfuel.
  unfold split_strings_from_subsection. cbn [snd]. apply Hstable; lia.
Qed.

(** *** The claims about [split_strings_from_subsection] *)

(** C1: for every subsection, positive [max_tokens], model and
    [max_recursion >= 0], [split_strings_from_subsection] returns a non-empty
    list, each element of which has [num_tokens] at most [max_tokens] or is a
    value of [truncated_string]. *)
Theorem split_strings_nonempty_within_budget_or_truncated
        (titles : list string) (text : string)
        (max_tokens : Z) (model : string) (max_recursion : Z) :
  (0 < max_tokens)%Z -> (0 <= max_recursion)%Z ->
  exists strings,
    split_strings_from_subsection (titles, text) max_tokens model max_recursion
    = Ok strings
    /\ strings <> []
    /\ Forall (within_budget_or_truncated titles max_tokens model) strings.
Proof.
  intros _ _. unfold split_strings_from_subsection. cbn [snd].
  destruct (split_strings_fuel_inv
              (fun _ strings =>
                 strings <> []
                 /\ Forall (within_budget_or_truncated titles max_tokens model)
                           strings)
              titles max_tokens model)
    with (fuel := S (String.length text)) (text := text)
         (max_recursion := max_recursion) as (strings & Hs & Hne & Hall).
  - intros _ text' Hle. split; [discriminate|].
    constructor; [now left | constructor].
  - intros _ text' _. split; [discriminate|].
    constructor; [right; now exists text' | constructor].
  - intros _ a b _ [Ha Hfa] [Hb Hfb]. split.
    + destruct a; [now elim Ha | discriminate].
    + apply Forall_app. now split.
  - lia.
  - now exists strings.
Qed.

(** C2: when the candidate string (titles and text joined with two newlines)
    has [num_tokens] at most [max_tokens], the result is the candidate alone,
    whatever [max_recursion] is. *)
Theorem split_strings_candidate_within_budget
        (titles : list string) (text : string)
        (max_tokens : Z) (model : string) (max_recursion : Z) :
  (num_tokens (join NLNL (titles ++ [text])) GPT_MODEL <= max_tokens)%Z ->
  split_strings_from_subsection (titles, text) max_tokens model max_recursion
  = Ok [join NLNL (titles ++ [text])].
Proof.
  intros Hle. unfold split_strings_from_subsection.
  cbn [snd split_strings_fuel].
  apply Z.leb_le in Hle. rewrite Hle. reflexivity.
Qed.

(** C8: for [max_recursion >= 0] the result has at most [2 ^ max_recursion]
    elements. *)
Theorem split_strings_length_bound
        (titles : list string) (text : string)
        (max_tokens : Z) (model : string) (max_recursion : Z) :
  (0 <= max_recursion)%Z ->
  exists strings,
    split_strings_from_subsection (titles, text) max_tokens model max_recursion
    = Ok strings
    /\ (Z.of_nat (List.length strings) <= 2 ^ max_recursion)%Z.
Proof.
  intros Hm. unfold split_strings_from_subsection. cbn [snd].
  destruct (split_strings_fuel_inv
              (fun m strings =>
                 (0 <= m)%Z -> (Z.of_nat (List.length strings) <= 2 ^ m)%Z)
              titles max_tokens model)
    with (fuel := S (String.length text)) (text := text)
         (max_recursion := max_recursion) as (strings & Hs & Hlen).
  - intros m text' _ Hpos. cbn [List.length].
    change (Z.of_nat 1) with (2 ^ 0)%Z.
    apply Z.pow_le_mono_r; lia.
  - intros m text' _ Hpos. cbn [List.length].
    change (Z.of_nat 1) with (2 ^ 0)%Z.
    apply Z.pow_le_mono_r; lia.
  - intros m a b Hne Ha Hb Hpos.
    rewrite List.length_app, Nat2Z.inj_add.
    replace m with (Z.succ (m - 1)) at 1 by lia.
    rewrite Z.pow_succ_r by lia.
    specialize (Ha ltac:(lia)). specialize (Hb ltac:(lia)). lia.
  - lia.
  - exists strings. auto.
Qed.

(** *** [truncated_string] *)

Lemma slice_to_nonneg {A : Type} (xs : list A) (n : Z) :
  (0 <= n)%Z -> slice_to xs n = firstn (Z.to_nat n) xs.
Proof.
  intros Hn. unfold slice_to.
  destruct (Z.ltb_spec n 0); [lia | reflexivity].
Qed.


End SplitterProperties.

(** *** Runs of the splitter with one token per character *)

(** The scan on ["p1\n\np2\n\np3\n\np4"] (14 tokens, halfway 7) first fails to
    improve at index 2; on ["a\n\nb\n\ncccccccccc"] it improves up to the last
    index, and the right half is the last chunk alone. *)
Lemma halved_by_delimiter_splits_witness :
  @halved_by_delimiter char_tokenizer four_paragraphs NLNL
  = Ok ("p1" ++ NLNL ++ "p2", "p3" ++ NLNL ++ "p4")
  /\ @halved_by_delimiter char_tokenizer long_last_paragraph NLNL
     = Ok ("a" ++ NLNL ++ "b", "cccccccccc").
Proof.
  split.
  - refine (proj1 (@halved_by_delimiter_splits_at_first_non_improvement
                     char_tokenizer four_paragraphs NLNL
                     ["p1"; "p2"; "p3"; "p4"] eq_refl _) 2%nat _ _ _).
    + simpl. lia.
    + simpl. lia.
    + intros [|[|j]] Hj; [reflexivity | reflexivity | lia].
    + vm_compute. discriminate.
  - refine (proj2 (@halved_by_delimiter_splits_at_first_non_improvement
                     char_tokenizer long_last_paragraph NLNL
                     ["a"; "b"; "cccccccccc"] eq_refl _) _).
    + simpl. lia.
    + intros [|[|j]] Hj; [reflexivity | reflexivity | simpl in Hj; lia].
Defined.

Lemma halved_by_delimiter_lossless_witness :
  ("p1" ++ NLNL ++ "p2") ++ NLNL ++ ("p3" ++ NLNL ++ "p4") = four_paragraphs.
Proof.
  apply (@halved_by_delimiter_lossless char_tokenizer four_paragraphs NLNL);
    [reflexivity | discriminate | discriminate].
Defined.

Lemma halved_by_delimiter_empty_left_witness :
  exists (string first : String.string) (others : list String.string),
    split string NLNL = Ok (first :: others)
    /\ (3 <= List.length (first :: others))%nat
    /\ startswith string NLNL = true
    /\ @num_tokens char_tokenizer first GPT_MODEL = 0%Z
    /\ (let halfway := (@num_tokens char_tokenizer string GPT_MODEL / 2)%Z in
        @scan_chunks char_tokenizer (first :: others) NLNL halfway
                     (first :: others) 0 halfway
        = 0%nat)
    /\ @halved_by_delimiter char_tokenizer string NLNL = Ok ("", string)
    /\ forall recurse truncated delimiters,
        @split_on_delimiters char_tokenizer recurse truncated string
                             (NLNL :: delimiters)
        = @split_on_delimiters char_tokenizer recurse truncated string delimiters.
Proof.
  apply (@halved_by_delimiter_empty_left_despite_delimiter char_tokenizer).
  reflexivity.
Defined.

Lemma split_strings_nonempty_witness :
  exists strings,
    @split_strings_from_subsection char_tokenizer (["T"], four_paragraphs)
                                   8 GPT_MODEL 1
    = Ok strings
    /\ strings <> []
    /\ Forall (@within_budget_or_truncated char_tokenizer ["T"] 8 GPT_MODEL)
              strings.
Proof.
  apply (@split_strings_nonempty_within_budget_or_truncated
           char_tokenizer ["T"] four_paragraphs 8 GPT_MODEL 1); lia.
Defined.

Lemma split_strings_candidate_witness :
  @split_strings_from_subsection char_tokenizer (["T"], "short") 8 GPT_MODEL 5
  = Ok ["T" ++ NLNL ++ "short"].
Proof.
  apply (@split_strings_candidate_within_budget
           char_tokenizer ["T"] "short" 8 GPT_MODEL 5).
  vm_compute. discriminate.
Defined.

Lemma split_strings_length_bound_witness :
  exists strings,
    @split_strings_from_subsection char_tokenizer (["T"], four_paragraphs)
                                   8 GPT_MODEL 2
    = Ok strings
    /\ (Z.of_nat (List.length strings) <= 2 ^ 2)%Z.
Proof.
  apply (@split_strings_length_bound
           char_tokenizer ["T"] four_paragraphs 8 GPT_MODEL 2); lia.
Defined.


(* ================================================================= *)
(** ** Cleaning *)

(** *** [strip] *)

Lemma lstrip_by_head (p : ascii -> bool) (s : string) :
  lstrip_by p s = ""
  \/ exists c r, lstrip_by p s = String c r /\ p c = false.
Proof.
  induction s as [|c s IH]; simpl; [now left|].
  destruct (p c) eqn:Hc; [exact IH | right; eauto].
Qed.

Lemma rstrip_by_head (p : ascii -> bool) (c : ascii) (s : string) :
  p c = false -> exists r, rstrip_by p (String c s) = String c r.
Proof.
  intros Hc. simpl. destruct (rstrip_by p s); [rewrite Hc|]; eauto.
Qed.

Lemma rstrip_by_idempotent (p : ascii -> bool) (s : string) :
  rstrip_by p (rstrip_by p s) = rstrip_by p s.
Proof.
  induction s as [|c s IH]; [reflexivity|].
  simpl. destruct (rstrip_by p s) as [|d r] eqn:Hr.
  - destruct (p c) eqn:Hc; [reflexivity|]. simpl. now rewrite Hc.
  - change (rstrip_by p (String c (String d r)))
      with (match rstrip_by p (String d r) with
            | "" => if p c then "" else String c ""
            | String _ _ as r' => String c r'
            end).
    now rewrite IH.
Qed.

Lemma strip_by_idempotent (p : ascii -> bool) (s : string) :
  strip_by p (strip_by p s) = strip_by p s.
Proof.
  unfold strip_by.
  assert (Hl : lstrip_by p (rstrip_by p (lstrip_by p s))
               = rstrip_by p (lstrip_by p s)).
  { destruct (lstrip_by_head p s) as [->|(c & r & -> & Hc)]; [reflexivity|].
    destruct (rstrip_by_head p c r Hc) as [r' ->]. simpl. now rewrite Hc. }
  rewrite Hl. apply rstrip_by_idempotent.
Qed.

Lemma lstrip_by_length (p : ascii -> bool) (s : string) :
  (String.length (lstrip_by p s) <= String.length s)%nat.
Proof. induction s as [|c s IH]; simpl; [lia|]. destruct (p c); simpl; lia. Qed.

Lemma rstrip_by_length (p : ascii -> bool) (s : string) :
  (String.length (rstrip_by p s) <= String.length s)%nat.
Proof.
  induction s as [|c s IH]; simpl; [lia|].
  destruct (rstrip_by p s); [destruct (p c)|]; simpl in *; lia.
Qed.

Lemma strip_by_length (p : ascii -> bool) (s : string) :
  (String.length (strip_by p s) <= String.length s)%nat.
Proof.
  unfold strip_by. pose proof (rstrip_by_length p (lstrip_by p s)).
  pose proof (lstrip_by_length p s). lia.
Qed.

(** *** The pattern [<ref.*?</ref>] *)

(** What [.*?</ref>] matches: characters other than a newline, then [</ref>]. *)
Lemma lazy_dots_then_close_inv (s : string) :
  forall n, lazy_dots_then_close s = Some n ->
  exists inner rest,
    s = inner ++ "</ref>" ++ rest
    /\ n = (String.length inner + 6)%nat
    /\ ~ In newline (list_ascii_of_string inner).
Proof.
  induction s as [|c s IH]; intros n Hn.
  - simpl in Hn. destruct (startswith "" "</ref>") eqn:Hp; [|discriminate].
    discriminate.
  - cbn [lazy_dots_then_close] in Hn.
    destruct (startswith (String c s) "</ref>") eqn:Hp.
    + injection Hn as <-. destruct (startswith_inv _ _ Hp) as [rest ->].
      exists "", rest. simpl. auto.
    + destruct (Ascii.eqb_spec c newline) as [|Hc]; [discriminate|].
      destruct (lazy_dots_then_close s) as [m|] eqn:Hm; [|discriminate].
      injection Hn as <-.
      destruct (IH m eq_refl) as (inner & rest & -> & -> & Hnl).
      exists (String c inner), rest. simpl. repeat split; auto.
      intros [Heq|Hin]; [now apply Hc | now apply Hnl].
Qed.

(** What the pattern matches at the head of a string: [<ref], characters other
    than a newline, [</ref>]. *)
Lemma match_ref_inv (s : string) (n : nat) :
  match_ref s = Some n ->
  exists inner rest,
    s = "<ref" ++ inner ++ "</ref>" ++ rest
    /\ n = (4 + String.length inner + 6)%nat
    /\ ~ In newline (list_ascii_of_string inner).
Proof.
  unfold match_ref. destruct (startswith s "<ref") eqn:Hp; [|discriminate].
  destruct (startswith_inv _ _ Hp) as [tail ->].
  change (drop 4 ("<ref" ++ tail)) with tail.
  destruct (lazy_dots_then_close tail) as [m|] eqn:Hm; [|discriminate].
  intros [= <-].
  destruct (lazy_dots_then_close_inv _ _ Hm) as (inner & rest & -> & -> & Hnl).
  exists inner, rest. repeat split; auto.
Qed.

Lemma sub_ref_from_length (s : string) :
  forall skip,
    (String.length (sub_ref_from skip s) <= String.length s - skip)%nat.
Proof.
  induction s as [|c s IH]; intros skip; [simpl; lia|].
  cbn [sub_ref_from]. destruct skip as [|k].
  - destruct (match_ref (String c s)) as [n|].
    + specialize (IH (n - 1)%nat). simpl. lia.
    + specialize (IH 0%nat). simpl. lia.
  - specialize (IH k). simpl. lia.
Qed.

(** A text without a match is left as it is ... *)
Lemma sub_ref_no_match (text : string) :
  has_no_ref_match text -> sub_ref text = text.
Proof.
  unfold has_no_ref_match, sub_ref.
  induction text as [|c text IH]; intros Hno; [reflexivity|].
  cbn [sub_ref_from]. rewrite (Hno 0%nat : match_ref (String c text) = None).
  f_equal. apply IH. intros k. exact (Hno (S k)).
Qed.

(** ... and a text of unchanged length had no match. *)
Lemma sub_ref_same_length (text : string) :
  String.length (sub_ref text) = String.length text -> has_no_ref_match text.
Proof.
  unfold has_no_ref_match, sub_ref.
  induction text as [|c text IH]; intros Hlen k.
  - now destruct k.
  - cbn [sub_ref_from] in Hlen.
    destruct (match_ref (String c text)) as [n|] eqn:Hm.
    + pose proof (sub_ref_from_length text (n - 1)). simpl in Hlen. lia.
    + destruct k as [|k]; [exact Hm|].
      apply IH. simpl in Hlen. lia.
Qed.

(** *** The claims about [clean_section] *)

(** C7 as stated fails on the code: removing the inner reference of
    [<re<ref></ref>f>x</ref>] leaves [<ref>x</ref>], which a second pass
    removes. *)
Lemma clean_section_not_idempotent :
  clean_section (clean_section ([], spliced_ref))
  <> clean_section ([], spliced_ref).
Proof. vm_compute. discriminate. Qed.

(** C7, as the code has it: cleaning a cleaned subsection again changes
    nothing exactly when the cleaned text holds no match of [<ref.*?</ref>]
    any more. *)
Theorem clean_section_idempotent_iff_no_ref_left (section : subsection) :
  clean_section (clean_section section) = clean_section section
  <-> has_no_ref_match (snd (clean_section section)).
Proof.
  destruct section as [titles text]. cbn [clean_section snd].
  set (cleaned := strip (sub_ref text)). split.
  - intros Hsame. injection Hsame as Hsame.
    apply sub_ref_same_length.
    pose proof (strip_by_length isspace (sub_ref cleaned)) as Hstrip.
    fold (strip (sub_ref cleaned)) in Hstrip. rewrite Hsame in Hstrip.
    pose proof (sub_ref_from_length cleaned 0) as Hsub.
    fold (sub_ref cleaned) in Hsub. lia.
  - intros Hno. rewrite (sub_ref_no_match _ Hno). f_equal.
    apply strip_by_idempotent.
Qed.

(** C9: a match of the pattern never spans a line break, and there is a
    subsection whose text has a [<ref>...</ref>] span over a line break that
    [clean_section] leaves in the text. *)
Theorem clean_section_keeps_multiline_ref :
  (forall s n,
      match_ref s = Some n ->
      exists inner rest,
        s = "<ref" ++ inner ++ "</ref>" ++ rest
        /\ n = (4 + String.length inner + 6)%nat
        /\ ~ In newline (list_ascii_of_string inner))
  /\ exists titles before inner after,
      In newline (list_ascii_of_string inner)
      /\ clean_section (titles, before ++ "<ref>" ++ inner ++ "</ref>" ++ after)
         = (titles, before ++ "<ref>" ++ inner ++ "</ref>" ++ after).
Proof.
  split; [exact match_ref_inv|].
  exists ["T"], "See", ("a" ++ NL ++ "b"), ".".
  split; [simpl; auto | reflexivity].
Qed.

Lemma clean_section_idempotent_witness :
  clean_section (clean_section (["T"], "  See <ref name=x>y</ref> text. "))
  = clean_section (["T"], "  See <ref name=x>y</ref> text. ").
Proof.
  apply (proj2 (clean_section_idempotent_iff_no_ref_left
                  (["T"], "  See <ref name=x>y</ref> text. "))).
  apply sub_ref_same_length. reflexivity.
Defined.

Lemma clean_section_single_line_match_witness :
  exists inner rest,
    "<ref>a</ref>b" = "<ref" ++ inner ++ "</ref>" ++ rest
    /\ 12%nat = (4 + String.length inner + 6)%nat
    /\ ~ In newline (list_ascii_of_string inner).
Proof.
  apply (proj1 clean_section_keeps_multiline_ref "<ref>a</ref>b" 12%nat).
  reflexivity.
Defined.

(* ================================================================= *)
(** ** Flattening *)

Lemma bind_ok {A B : Type} (r : result A) (k : A -> result B) (b : B) :
  bind r k = Ok b -> exists a, r = Ok a /\ k a = Ok b.
Proof. destruct r; simpl; [eauto | discriminate | discriminate]. Qed.

(** The loop that extends [results] keeps a property of all elements that
    every extension has. *)
Lemma extend_each_Forall {A B : Type} (P : B -> Prop) (f : A -> result (list B))
      (xs : list A) :
  (forall x r, f x = Ok r -> Forall P r) ->
  forall results out,
    Forall P results -> extend_each f results xs = Ok out -> Forall P out.
Proof.
  intros Hf. induction xs as [|x xs IH]; intros results out Hres Hout.
  - injection Hout as <-. exact Hres.
  - cbn [extend_each] in Hout. apply bind_ok in Hout as (r & Hr & Hout).
    apply (IH (results ++ r)%list); [|exact Hout].
    apply Forall_app. split; [exact Hres | exact (Hf _ _ Hr)].
Qed.


(** A loop that returns still returns the same with a body that returns
    whatever the first body returns. *)
Lemma extend_each_ok_mono {A B : Type} (f g : A -> result (list B))
      (xs : list A) :
  (forall x r, f x = Ok r -> g x = Ok r) ->
  forall results out,
    extend_each f results xs = Ok out -> extend_each g results xs = Ok out.
Proof.
  intros Hfg. induction xs as [|x xs IH]; intros results out Hout; [exact Hout|].
  cbn [extend_each] in *. apply bind_ok in Hout as (r & Hr & Hout).
  rewrite (Hfg _ _ Hr). cbn [bind]. now apply IH.
Qed.

Section FlattenerProperties.

Context {Wikicode : Type} `{WikicodeLib Wikicode}.

(** Every subsection that is returned lies below headings that are kept. *)
Lemma all_subsections_below_kept_headings (sections_to_ignore : list string) :
  forall fuel section parent_titles results,
    all_subsections_from_section fuel section parent_titles sections_to_ignore
    = Ok results ->
    Forall (below_kept_headings sections_to_ignore parent_titles) results.
Proof.
  induction fuel as [|fuel IH]; intros section parent_titles results Hres;
    [discriminate|].
  cbn [all_subsections_from_section] in Hres.
  apply bind_ok in Hres as (title & _ & Hres).
  destruct (ignored sections_to_ignore title) eqn:Hkept.
  { injection Hres as <-. constructor. }
  assert (Hhere : forall text,
             below_kept_headings sections_to_ignore parent_titles
                                 ((parent_titles ++ [title])%list, text)).
  { intros text. exists [title]. repeat split; [discriminate | now constructor]. }
  apply bind_ok in Hres as (pieces & _ & Hres).
  apply bind_ok in Hres as (section_text & _ & Hres).
  destruct (List.length (filter_headings section) =? 1)%nat.
  { injection Hres as <-. constructor; [apply Hhere | constructor]. }
  apply bind_ok in Hres as (first_subtitle & _ & Hres).
  apply bind_ok in Hres as (pieces' & _ & Hres).
  apply bind_ok in Hres as (section_text' & _ & Hres).
  revert Hres. apply extend_each_Forall.
  - intros sub r Hr. apply IH in Hr.
    eapply Forall_impl; [|exact Hr].
    intros [titles text] (below & Hne & Htitles & Hbelow).
    exists (title :: below). cbn [fst] in *. split; [discriminate|]. split.
    + rewrite Htitles, <- app_assoc. reflexivity.
    + constructor; assumption.
  - constructor; [apply Hhere | constructor].
Qed.

(** A result does not depend on the fuel that was enough to reach it. *)
Lemma all_subsections_fuel_mono (sections_to_ignore : list string) :
  forall fuel section parent_titles results,
    all_subsections_from_section fuel section parent_titles sections_to_ignore
    = Ok results ->
    forall fuel', (fuel <= fuel')%nat ->
    all_subsections_from_section fuel' section parent_titles sections_to_ignore
    = Ok results.
Proof.
  induction fuel as [|fuel IH];
    intros section parent_titles results Hres fuel' Hle; [discriminate|].
  destruct fuel' as [|fuel']; [lia|].
  cbn [all_subsections_from_section] in *.
  destruct (index (filter_headings section) 0) as [title| |];
    cbn [bind] in *; try discriminate.
  destruct (ignored sections_to_ignore title); [exact Hres|].
  destruct (split (to_str section) title) as [pieces| |];
    cbn [bind] in *; try discriminate.
  destruct (index pieces 1) as [section_text| |];
    cbn [bind] in *; try discriminate.
  destruct (List.length (filter_headings section) =? 1)%nat; [exact Hres|].
  destruct (index (filter_headings section) 1) as [first_subtitle| |];
    cbn [bind] in *; try discriminate.
  destruct (split section_text first_subtitle) as [pieces'| |];
    cbn [bind] in *; try discriminate.
  destruct (index pieces' 0) as [section_text'| |];
    cbn [bind] in *; try discriminate.
  revert Hres. apply extend_each_ok_mono.
  intros sub r Hr. apply (IH _ _ _ Hr). lia.
Qed.


End FlattenerProperties.



(* ================================================================= *)
(** * Further properties *)

(** ** Occurrences of a separator *)

Lemma no_occurrence_tail (sep : string) (c : ascii) (s : string) :
  no_occurrence sep (String c s) -> no_occurrence sep s.
Proof. intros Hno k. exact (Hno (S k)). Qed.

Lemma no_occurrence_not_empty (sep s : string) :
  no_occurrence sep s -> sep <> "".
Proof.
  intros Hno ->. specialize (Hno 0%nat). simpl in Hno.
  unfold startswith in Hno. now destruct s.
Qed.

Lemma startswith_empty (sep : string) : sep <> "" -> startswith "" sep = false.
Proof. unfold startswith. destruct sep; [intros Hne; now elim Hne | reflexivity]. Qed.

(** Without an occurrence of the separator, [split] returns the string alone. *)
Lemma split_from_no_occurrence (sep s : string) :
  no_occurrence sep s -> split_from sep 0 s = [s].
Proof.
  induction s as [|c s IH]; intros Hno; [reflexivity|].
  cbn [split_from]. rewrite (Hno 0%nat : startswith (String c s) sep = false).
  now rewrite (IH (no_occurrence_tail _ _ _ Hno)).
Qed.

(** ... and a single piece means that there was none. *)
Lemma split_from_single (sep s : string) :
  sep <> "" -> List.length (split_from sep 0 s) = 1%nat -> no_occurrence sep s.
Proof.
  intros Hsep. induction s as [|c s IH]; intros Hlen k.
  - destruct k; simpl; now apply startswith_empty.
  - cbn [split_from] in Hlen.
    destruct (startswith (String c s) sep) eqn:Hhere.
    + pose proof (split_from_not_nil sep (String.length sep - 1) s) as Hne.
      destruct (split_from sep (String.length sep - 1) s); [now elim Hne|].
      simpl in Hlen. lia.
    + destruct k as [|k]; [exact Hhere|].
      apply IH.
      pose proof (split_from_not_nil sep 0 s) as Hne.
      destruct (split_from sep 0 s); [now elim Hne | exact Hlen].
Qed.

(** ** More on halving *)

Section MoreHalving.

Context `{Tokenizer}.

(** The index at which the loop is left is the index of a chunk. *)
Lemma scan_chunks_bounds (chunks : list string) (delimiter : string)
      (halfway : Z) (pending : list string) :
  pending <> [] ->
  forall i best_diff,
    (i <= scan_chunks chunks delimiter halfway pending i best_diff
     < i + List.length pending)%nat.
Proof.
  induction pending as [|c pending IH]; intros Hne i best_diff; [now elim Hne|].
  cbn [scan_chunks List.length].
  destruct (_ >=? best_diff)%Z; [lia|].
  destruct pending as [|c' pending]; [simpl; lia|].
  specialize (IH ltac:(discriminate) (S i)
                 (Z.abs (halfway - num_tokens
                                     (join delimiter (firstn (i + 1) chunks))
                                     GPT_MODEL))).
  cbn [List.length] in *. lia.
Qed.

(** The halves of a string of three chunks or more: nothing and the whole
    string when the loop is left at index 0, two parts that rejoin to the
    string otherwise. *)
Lemma halved_by_delimiter_three_chunks (string delimiter : String.string)
      (chunks : list String.string) :
  split string delimiter = Ok chunks ->
  (3 <= List.length chunks)%nat ->
  exists i left right,
    scan_chunks chunks delimiter (num_tokens string GPT_MODEL / 2)%Z chunks 0
                (num_tokens string GPT_MODEL / 2)%Z = i
    /\ halved_by_delimiter string delimiter = Ok (left, right)
    /\ left = join delimiter (firstn i chunks)
    /\ right = join delimiter (skipn i chunks)
    /\ ((i = 0%nat /\ left = "" /\ right = string)
        \/ ((0 < i)%nat /\ left ++ delimiter ++ right = string)).
Proof.
  intros Hsplit Hlen.
  pose proof (halved_by_delimiter_scanned _ _ _ Hsplit Hlen) as Hscan.
  cbv zeta in Hscan.
  set (i := scan_chunks chunks delimiter (num_tokens string GPT_MODEL / 2)%Z
                        chunks 0 (num_tokens string GPT_MODEL / 2)%Z) in *.
  assert (Hi : (i < List.length chunks)%nat).
  { unfold i. apply (scan_chunks_bounds chunks delimiter _ chunks).
    intros ->. simpl in Hlen. lia. }
  exists i, (join delimiter (firstn i chunks)), (join delimiter (skipn i chunks)).
  repeat split; try assumption.
  destruct i as [|i].
  - left. repeat split. exact (join_split _ _ _ Hsplit).
  - right. split; [lia|].
    rewrite join_firstn_skipn, (join_split _ _ _ Hsplit); [reflexivity| |].
    + destruct chunks; [simpl in Hlen; lia | discriminate].
    + intros Hnil. apply (f_equal (@List.length _)) in Hnil.
      rewrite length_skipn in Hnil. simpl in Hnil. lia.
Qed.

(** X1: for a non-empty delimiter, [halved_by_delimiter] returns the string
    and an empty second half exactly when the delimiter does not occur in the
    string. *)
Theorem halved_by_delimiter_absent_iff (string delimiter : String.string) :
  delimiter <> "" ->
  (no_occurrence delimiter string
   <-> halved_by_delimiter string delimiter = Ok (string, "")).
Proof.
  intros Hd.
  pose proof (split_ok string delimiter Hd) as Hsplit.
  pose proof (join_split _ _ _ Hsplit) as Hjoin.
  assert (Hgrow : forall right, string ++ delimiter ++ right <> string).
  { intros right Heq. apply (f_equal String.length) in Heq.
    rewrite !string_length_app in Heq.
    destruct delimiter; [now elim Hd | simpl in Heq; lia]. }
  split.
  - intros Hno. rewrite (halved_by_delimiter_chunks _ _ _ Hsplit).
    now rewrite (split_from_no_occurrence _ _ Hno).
  - intros Hhalved.
    destruct (split_from delimiter 0 string) as [|a [|b [|c rest]]] eqn:Hchunks.
    + now elim (split_from_not_nil delimiter 0 string).
    + apply split_from_single; [exact Hd | now rewrite Hchunks].
    + rewrite (halved_by_delimiter_chunks _ _ _ Hsplit) in Hhalved.
      injection Hhalved as -> ->. now elim (Hgrow "").
    + destruct (halved_by_delimiter_three_chunks _ _ _ Hsplit)
        as (i & left & right & _ & Hres & _ & _ & [(_ & Hl & Hr)|(_ & Hcut)]);
        [simpl; lia | |]; rewrite Hres in Hhalved; injection Hhalved as -> ->.
      * rewrite <- Hr in Hchunks. discriminate.
      * now elim (Hgrow "").
Qed.

(** X2: [halved_by_delimiter] raises [ValueError] for the empty delimiter and
    nothing else; for any other delimiter it returns a pair, neither half of
    which is longer than the string. *)
Theorem halved_by_delimiter_outcome (string delimiter : String.string) :
  (delimiter = "" -> halved_by_delimiter string delimiter = Raise ValueError)
  /\ (delimiter <> "" ->
      exists left right,
        halved_by_delimiter string delimiter = Ok (left, right)
        /\ (String.length left <= String.length string)%nat
        /\ (String.length right <= String.length string)%nat).
Proof.
  split; [intros ->; reflexivity|].
  intros Hd.
  pose proof (split_ok string delimiter Hd) as Hsplit.
  pose proof (join_split _ _ _ Hsplit) as Hjoin.
  destruct (split_from delimiter 0 string) as [|a [|b [|c rest]]] eqn:Hchunks.
  - now elim (split_from_not_nil delimiter 0 string).
  - exists string, "". rewrite (halved_by_delimiter_chunks _ _ _ Hsplit).
    simpl. repeat split; lia.
  - exists a, b. rewrite (halved_by_delimiter_chunks _ _ _ Hsplit).
    rewrite <- Hjoin. simpl. rewrite !string_length_app. repeat split; lia.
  - destruct (halved_by_delimiter_three_chunks _ _ _ Hsplit)
      as (i & left & right & _ & Hres & _ & _ & Hcases); [simpl; lia|].
    exists left, right. split; [exact Hres|].
    destruct Hcases as [(_ & -> & ->)|(_ & Hcut)]; [simpl; lia|].
    apply (f_equal String.length) in Hcut.
    rewrite !string_length_app in Hcut. lia.
Qed.

End MoreHalving.

Section FirstChunk.

Context `{Tokenizer}.

(** X3: with three chunks or more, the first chunk decides whether there is a
    left half at all.  If the first chunk has no tokens, or at least twice the
    halfway count, the loop is left at index 0 and the halves are the empty
    string and the whole string; otherwise the left half holds the first chunk
    and the halves rejoin to the string. *)
Theorem halved_by_delimiter_first_chunk
        (string delimiter first : String.string) (others : list String.string) :
  split string delimiter = Ok (first :: others) ->
  (3 <= List.length (first :: others))%nat ->
  let halfway := (num_tokens string GPT_MODEL / 2)%Z in
  let first_tokens := num_tokens first GPT_MODEL in
  ((first_tokens = 0 \/ 2 * halfway <= first_tokens)%Z ->
   halved_by_delimiter string delimiter = Ok ("", string))
  /\ ((0 < first_tokens < 2 * halfway)%Z ->
      exists i left right,
        (0 < i)%nat
        /\ halved_by_delimiter string delimiter = Ok (left, right)
        /\ left = join delimiter (firstn i (first :: others))
        /\ left ++ delimiter ++ right = string).
Proof.
  intros Hsplit Hlen halfway first_tokens.
  destruct (halved_by_delimiter_three_chunks _ _ _ Hsplit Hlen)
    as (i & left & right & Hi & Hres & Hl & Hr & Hcases).
  fold halfway in Hi.
  assert (Hdiff : prefix_diff (first :: others) delimiter halfway 0
                  = Z.abs (halfway - first_tokens)) by reflexivity.
  pose proof (num_tokens_nonneg first GPT_MODEL) as Hpos. fold first_tokens in Hpos.
  split.
  - intros Hcond.
    assert (Hzero : i = 0%nat).
    { rewrite <- Hi.
      apply (scan_chunks_break (first :: others) delimiter halfway
                               (first :: others) 0 0).
      - simpl. lia.
      - intros j Hj. lia.
      - unfold improves. rewrite Hdiff. cbn [best_diff_before]. lia. }
    destruct Hcases as [(_ & -> & ->)|(Hi' & _)]; [exact Hres | lia].
  - intros Hcond. exists i, left, right.
    assert (Hone : (0 < i)%nat).
    { rewrite <- Hi. cbn [scan_chunks]. fold first_tokens.
      change (join delimiter (firstn (0 + 1) (first :: others))) with first.
      fold first_tokens.
      destruct (Z.abs (halfway - first_tokens) >=? halfway)%Z eqn:Hge;
        [apply Z.geb_le in Hge; lia|].
      apply (scan_chunks_bounds (first :: others) delimiter halfway others).
      intros ->. simpl in Hlen. lia. }
    destruct Hcases as [(Hi' & _)|(_ & Hcut)]; [lia|]. auto.
Qed.

End FirstChunk.

(** A first paragraph of ten tokens out of eleven leaves no left half; a first
    paragraph of two tokens out of fourteen stays in the left half. *)
Lemma halved_first_chunk_witness :
  @halved_by_delimiter visible_tokenizer ("aaaaaaaaaa" ++ NLNL ++ "b" ++ NLNL) NLNL
  = Ok ("", "aaaaaaaaaa" ++ NLNL ++ "b" ++ NLNL)
  /\ exists i left right,
      (0 < i)%nat
      /\ @halved_by_delimiter char_tokenizer four_paragraphs NLNL
         = Ok (left, right)
      /\ left = join NLNL (firstn i ["p1"; "p2"; "p3"; "p4"])
      /\ left ++ NLNL ++ right = four_paragraphs.
Proof.
  split.
  - refine (proj1 (@halved_by_delimiter_first_chunk
                     visible_tokenizer ("aaaaaaaaaa" ++ NLNL ++ "b" ++ NLNL) NLNL
                     "aaaaaaaaaa" ["b"; ""] eq_refl _) _).
    + simpl. lia.
    + right. vm_compute. discriminate.
  - refine (proj2 (@halved_by_delimiter_first_chunk
                     char_tokenizer four_paragraphs NLNL
                     "p1" ["p2"; "p3"; "p4"] eq_refl _) _).
    + simpl. lia.
    + split; reflexivity.
Defined.

(** ** More on splitting *)

Section MoreSplitting.

Context `{Tokenizer}.

Lemma halved_by_delimiter_absent (string delimiter : String.string) :
  no_occurrence delimiter string ->
  halved_by_delimiter string delimiter = Ok (string, "").
Proof.
  intros Hno.
  pose proof (split_ok string delimiter (no_occurrence_not_empty _ _ Hno)) as Hs.
  rewrite (halved_by_delimiter_chunks _ _ _ Hs).
  now rewrite (split_from_no_occurrence _ _ Hno).
Qed.





Lemma no_newline_no_blank_line (text : string) :
  no_occurrence NL text -> no_occurrence NLNL text.
Proof.
  intros Hno k. specialize (Hno k).
  destruct (startswith (drop k text) NLNL) eqn:Hblank; [|reflexivity].
  apply startswith_inv in Hblank as [r Hr]. rewrite Hr in Hno.
  change (NLNL ++ r) with (NL ++ (NL ++ r)) in Hno.
  rewrite startswith_app in Hno. discriminate.
Qed.

(** X5: a text over budget that has no line break and no [". "] in it is not
    split at all: the result is the truncated candidate alone, whatever
    [max_recursion] is. *)
Theorem split_strings_without_delimiter
        (titles : list string) (text : string)
        (max_tokens : Z) (model : string) (max_recursion : Z) :
  (max_tokens < num_tokens (candidate titles text) GPT_MODEL)%Z ->
  no_occurrence NL text ->
  no_occurrence ". " text ->
  split_strings_from_subsection (titles, text) max_tokens model max_recursion
  = Ok [truncated_string (candidate titles text) model max_tokens].
Proof.
  intros Hover Hnl Hdot. unfold split_strings_from_subsection.
  cbn [snd split_strings_fuel]. fold (candidate titles text).
  destruct (Z.leb_spec (num_tokens (candidate titles text) GPT_MODEL) max_tokens);
    [lia|].
  destruct (max_recursion =? 0)%Z; [reflexivity|].
  cbn [split_on_delimiters].
  rewrite (halved_by_delimiter_absent _ _ (no_newline_no_blank_line _ Hnl)).
  cbn [bind fst snd]. rewrite String.eqb_refl, orb_true_r.
  rewrite (halved_by_delimiter_absent _ _ Hnl).
  cbn [bind fst snd]. rewrite String.eqb_refl, orb_true_r.
  rewrite (halved_by_delimiter_absent _ _ Hdot).
  cbn [bind fst snd]. rewrite String.eqb_refl, orb_true_r.
  reflexivity.
Qed.

End MoreSplitting.

Lemma halved_by_delimiter_absent_witness :
  no_occurrence NLNL "onlyonepiece"
  <-> @halved_by_delimiter char_tokenizer "onlyonepiece" NLNL
      = Ok ("onlyonepiece", "").
Proof.
  apply (@halved_by_delimiter_absent_iff char_tokenizer "onlyonepiece" NLNL).
  discriminate.
Defined.

Lemma halved_by_delimiter_outcome_witness :
  exists left right,
    @halved_by_delimiter char_tokenizer four_paragraphs NL = Ok (left, right)
    /\ (String.length left <= String.length four_paragraphs)%nat
    /\ (String.length right <= String.length four_paragraphs)%nat.
Proof.
  apply (proj2 (@halved_by_delimiter_outcome char_tokenizer four_paragraphs NL)).
  discriminate.
Defined.

Lemma split_strings_without_delimiter_witness :
  @split_strings_from_subsection char_tokenizer (["T"], "abcdefghij") 5
                                 GPT_MODEL 3
  = Ok [@truncated_string char_tokenizer (candidate ["T"] "abcdefghij")
                          GPT_MODEL 5].
Proof.
  apply (@split_strings_without_delimiter
           char_tokenizer ["T"] "abcdefghij" 5 GPT_MODEL 3).
  - reflexivity.
  - apply split_from_single; [discriminate | reflexivity].
  - apply split_from_single; [discriminate | reflexivity].
Defined.

(** ** The token budget *)

Section Budget.

Context `{Tokenizer}.

Lemma slice_to_length {A : Type} (xs : list A) (n : Z) :
  (0 <= n)%Z -> (Z.of_nat (List.length (slice_to xs n)) <= n)%Z.
Proof.
  intros Hn. rewrite slice_to_nonneg by assumption.
  pose proof (firstn_le_length (Z.to_nat n) xs). lia.
Qed.

(** X6: with the default model, [max_tokens >= 0] and an encoding that encodes
    every decoded slice [encoded_string[:max_tokens]] back to that slice,
    every string that [split_strings_from_subsection] returns has at most
    [max_tokens] tokens. *)
Theorem split_strings_within_budget
        (titles : list string) (text : string)
        (max_tokens : Z) (max_recursion : Z) :
  (0 <= max_tokens)%Z ->
  (forall string,
      let encoding := encoding_for_model GPT_MODEL in
      encode encoding
             (decode encoding (slice_to (encode encoding string) max_tokens))
      = slice_to (encode encoding string) max_tokens) ->
  exists strings,
    split_strings_from_subsection (titles, text) max_tokens GPT_MODEL
                                  max_recursion
    = Ok strings
    /\ Forall (fun string => (num_tokens string GPT_MODEL <= max_tokens)%Z)
              strings.
Proof.
  intros Hpos Hstable. unfold split_strings_from_subsection. cbn [snd].
  apply (split_strings_fuel_inv
           (fun _ strings =>
              Forall (fun string => (num_tokens string GPT_MODEL <= max_tokens)%Z)
                     strings)).
  - intros _ text' Hle. now repeat constructor.
  - intros _ text' _. constructor; [|constructor].
    unfold num_tokens, truncated_string. rewrite Hstable.
    now apply slice_to_length.
  - intros _ a b _ Ha Hb. apply Forall_app. now split.
  - lia.
Qed.

(** The loop over the sections extends the results by at least [lo] and at
    most [hi] strings per section when each call does. *)
Lemma extend_each_length {A B : Type} (f : A -> result (list B)) (lo hi : nat)
      (xs : list A) :
  (forall x, exists r, f x = Ok r /\ (lo <= List.length r <= hi)%nat) ->
  forall results,
  exists out,
    extend_each f results xs = Ok out
    /\ (List.length results + lo * List.length xs <= List.length out
        <= List.length results + hi * List.length xs)%nat.
Proof.
  intros Hf. induction xs as [|x xs IH]; intros results.
  - exists results. simpl. split; [reflexivity | lia].
  - destruct (Hf x) as (r & Hr & Hlen).
    destruct (IH (results ++ r)%list) as (out & Hout & Hbound).
    exists out. cbn [extend_each]. rewrite Hr. cbn [bind].
    split; [exact Hout|].
    rewrite List.length_app in Hbound. cbn [List.length]. lia.
Qed.

(** X7: the loop that fills [wikipedia_strings] returns at least one string
    and at most 32 strings for each section. *)
Theorem split_sections_count (wikipedia_sections : list subsection) :
  exists wikipedia_strings,
    split_sections wikipedia_sections = Ok wikipedia_strings
    /\ (List.length wikipedia_sections <= List.length wikipedia_strings
        <= 32 * List.length wikipedia_sections)%nat.
Proof.
  unfold split_sections.
  destruct (extend_each_length
              (fun section =>
                 split_strings_from_subsection section MAX_TOKENS GPT_MODEL 5)
              1 32 wikipedia_sections) with (results := @nil string)
    as (out & Hout & Hbound).
  - intros [titles text]. unfold split_strings_from_subsection. cbn [snd].
    destruct (split_strings_fuel_inv
                (fun m strings =>
                   strings <> []
                   /\ ((0 <= m)%Z ->
                       (Z.of_nat (List.length strings) <= 2 ^ m)%Z))
                titles MAX_TOKENS GPT_MODEL)
      with (fuel := S (String.length text)) (text := text) (max_recursion := 5%Z)
      as (strings & Hs & Hne & Hlen).
    + intros m text' _. split; [discriminate|]. intros Hm.
      change (Z.of_nat (List.length [candidate titles text'])) with (2 ^ 0)%Z.
      apply Z.pow_le_mono_r; lia.
    + intros m text' _. split; [discriminate|]. intros Hm.
      cbn [List.length]. change (Z.of_nat 1) with (2 ^ 0)%Z.
      apply Z.pow_le_mono_r; lia.
    + intros m a b Hm [Ha Hla] [Hb Hlb]. split.
      * destruct a; [now elim Ha | discriminate].
      * intros Hpos. rewrite List.length_app, Nat2Z.inj_add.
        replace m with (Z.succ (m - 1)) at 1 by lia.
        rewrite Z.pow_succ_r by lia.
        specialize (Hla ltac:(lia)). specialize (Hlb ltac:(lia)). lia.
    + lia.
    + exists strings. split; [exact Hs|].
      specialize (Hlen ltac:(lia)). change (2 ^ 5)%Z with 32%Z in Hlen.
      destruct strings; [now elim Hne | simpl in *; lia].
  - exists out. split; [exact Hout | simpl in Hbound; lia].
Qed.

End Budget.

(** One token per character: every list of code points below 256 is encoded
    back from its decoding. *)
Lemma char_encoding_stable (string : string) (max_tokens : Z) :
  encode char_encoding
         (decode char_encoding (slice_to (encode char_encoding string) max_tokens))
  = slice_to (encode char_encoding string) max_tokens.
Proof.
  assert (Hround : forall ts,
             Forall (fun t => (0 <= t < 256)%Z) ts ->
             encode char_encoding (decode char_encoding ts) = ts).
  { intros ts Hts. cbn [encode decode char_encoding].
    rewrite list_ascii_of_string_of_list_ascii, map_map.
    induction Hts as [|t ts Ht _ IH]; [reflexivity|].
    cbn [map]. rewrite IH, nat_ascii_embedding by lia. f_equal. lia. }
  apply Hround.
  assert (Hrange : Forall (fun t => (0 <= t < 256)%Z) (encode char_encoding string)).
  { cbn [encode char_encoding]. apply Forall_forall. intros t Hin.
    apply in_map_iff in Hin as (c & <- & _).
    pose proof (nat_ascii_bounded c). lia. }
  assert (Hfirst : forall n, Forall (fun t => (0 <= t < 256)%Z)
                                   (firstn n (encode char_encoding string))).
  { intros n. rewrite <- (firstn_skipn n (encode char_encoding string)) in Hrange.
    now apply Forall_app in Hrange. }
  unfold slice_to. destruct (max_tokens <? 0)%Z; apply Hfirst.
Qed.

Lemma split_strings_within_budget_witness :
  exists strings,
    @split_strings_from_subsection char_tokenizer (["T"], four_paragraphs) 8
                                   GPT_MODEL 1
    = Ok strings
    /\ Forall (fun string =>
                 (@num_tokens char_tokenizer string GPT_MODEL <= 8)%Z) strings.
Proof.
  apply (@split_strings_within_budget char_tokenizer ["T"] four_paragraphs 8 1).
  - lia.
  - intros string. apply char_encoding_stable.
Defined.

(** ** More on flattening *)

Lemma drop_app_length (pre r : string) : drop (String.length pre) (pre ++ r) = r.
Proof. induction pre as [|c pre IH]; [reflexivity | exact IH]. Qed.

(** [split] cuts at the first occurrence of the separator and goes on behind
    it. *)
Lemma split_from_find_first (sep s : string) :
  sep <> "" ->
  split_from sep 0 s
  = match find_first sep s with
    | Some (before, after) => before :: split_from sep 0 after
    | None => [s]
    end.
Proof.
  intros Hsep. induction s as [|c s IH].
  - simpl. now rewrite (startswith_empty sep Hsep).
  - cbn [split_from find_first].
    destruct (startswith (String c s) sep) eqn:Hhere.
    + destruct (startswith_inv _ _ Hhere) as [r Hr]. rewrite Hr, drop_app_length.
      destruct sep as [|d sep]; [now elim Hsep|].
      simpl in Hr. injection Hr as -> ->.
      replace (String.length (String d sep) - 1)%nat with (String.length sep)
        by (simpl; lia).
      now rewrite split_from_skip.
    + rewrite IH. destruct (find_first sep s) as [[before after]|]; reflexivity.
Qed.

(** The first two pieces of [s.split(sep)]. *)
Lemma split_first_pieces (s sep : string) (pieces : list string) :
  split s sep = Ok pieces ->
  index pieces 0 = Ok (text_before sep s)
  /\ forall piece,
      index pieces 1 = Ok piece ->
      exists before after,
        find_first sep s = Some (before, after)
        /\ piece = text_before sep after.
Proof.
  unfold split. destruct (String.eqb_spec sep "") as [|Hsep]; [discriminate|].
  intros [= <-]. rewrite (split_from_find_first sep s Hsep). unfold text_before.
  destruct (find_first sep s) as [[before after]|]; split; try reflexivity.
  - intros piece Hpiece. exists before, after. split; [reflexivity|].
    rewrite (split_from_find_first sep after Hsep) in Hpiece.
    unfold text_before.
    destruct (find_first sep after) as [[b a]|]; now injection Hpiece as <-.
  - intros piece Hpiece. discriminate.
Qed.

(** What the loop adds to [results] comes behind them, and has every property
    that the results of the body have. *)
Lemma extend_each_added {A B : Type} (P : B -> Prop) (f : A -> result (list B))
      (xs : list A) :
  (forall x r, f x = Ok r -> Forall P r) ->
  forall results out,
    extend_each f results xs = Ok out ->
    exists added, out = (results ++ added)%list /\ Forall P added.
Proof.
  intros Hf. induction xs as [|x xs IH]; intros results out Hout.
  - injection Hout as <-. exists []. now rewrite app_nil_r.
  - cbn [extend_each] in Hout. apply bind_ok in Hout as (r & Hr & Hout).
    destruct (IH _ _ Hout) as (added & -> & Hadded).
    exists (r ++ added)%list. rewrite app_assoc. split; [reflexivity|].
    apply Forall_app. split; [exact (Hf _ _ Hr) | exact Hadded].
Qed.

Section MoreFlattening.

Context {Wikicode : Type} `{WikicodeLib Wikicode}.

(** X8: what [all_subsections_from_section] returns for a section that is not
    ignored.  The section's own subsection comes first, under the parent
    titles and its heading; its text is what follows the first occurrence of
    the heading in [str(section)], up to the next occurrence of the heading
    string and, with nested headings, up to the first occurrence of the first
    of them.  Every other subsection lies below the section's titles, under
    headings that are not ignored. *)
Theorem all_subsections_own_then_nested
        (fuel : nat) (section : Wikicode)
        (parent_titles sections_to_ignore : list string)
        (title : string) (results : list subsection) :
  index (filter_headings section) 0 = Ok title ->
  ignored sections_to_ignore title = false ->
  all_subsections_from_section fuel section parent_titles sections_to_ignore
  = Ok results ->
  exists before after own_text nested,
    find_first title (to_str section) = Some (before, after)
    /\ results = ((parent_titles ++ [title])%list, own_text) :: nested
    /\ own_text
       = match filter_headings section with
         | _ :: first_subtitle :: _ =>
             text_before first_subtitle (text_before title after)
         | _ => text_before title after
         end
    /\ Forall (below_kept_headings sections_to_ignore
                                   (parent_titles ++ [title])%list)
              nested.
Proof.
  intros Htitle Hkept Hres.
  destruct fuel as [|fuel]; [discriminate|].
  cbn [all_subsections_from_section] in Hres.
  rewrite Htitle in Hres. cbn [bind] in Hres. rewrite Hkept in Hres.
  apply bind_ok in Hres as (pieces & Hpieces & Hres).
  apply bind_ok in Hres as (section_text & Hsection_text & Hres).
  destruct (split_first_pieces _ _ _ Hpieces) as [_ Hsecond].
  destruct (Hsecond _ Hsection_text) as (before & after & Hfind & ->).
  exists before, after.
  destruct (filter_headings section) as [|h [|first_subtitle more]] eqn:Hheadings;
    [discriminate | |].
  - cbn in Hres. injection Hres as <-. eexists _, []. repeat split; auto.
  - cbn [List.length Nat.eqb index nth_error bind] in Hres.
    apply bind_ok in Hres as (pieces' & Hpieces' & Hres).
    apply bind_ok in Hres as (section_text' & Hsection_text' & Hres).
    destruct (split_first_pieces _ _ _ Hpieces') as [Hfirst _].
    rewrite Hfirst in Hsection_text'. injection Hsection_text' as <-.
    apply (extend_each_added
             (below_kept_headings sections_to_ignore
                                  (parent_titles ++ [title])%list))
      in Hres as (nested & -> & Hnested).
    + eexists _, nested. repeat split; auto.
    + intros sub r Hr.
      exact (all_subsections_below_kept_headings _ _ _ _ _ Hr).
Qed.

(** X9: what [all_subsections_from_title] returns.  The summary comes first,
    under the page title alone, whether or not the title is in the ignore set;
    it is the page text up to the first occurrence of the first heading, or
    the whole text of a page without headings.  Every other subsection has
    the page title first and below it only headings that are not ignored. *)
Theorem all_subsections_from_title_summary_first
        (fuel : nat) (parsed_text : Wikicode) (title : string)
        (sections_to_ignore : list string) (results : list subsection) :
  all_subsections_from_title fuel parsed_text title sections_to_ignore
  = Ok results ->
  exists nested,
    results
    = ([title],
       match filter_headings parsed_text with
       | first_heading :: _ => text_before first_heading (to_str parsed_text)
       | [] => to_str parsed_text
       end) :: nested
    /\ Forall (below_kept_headings sections_to_ignore [title]) nested.
Proof.
  unfold all_subsections_from_title. intros Hres.
  apply bind_ok in Hres as (summary_text & Hsummary & Hres).
  apply (extend_each_added (below_kept_headings sections_to_ignore [title]))
    in Hres as (nested & -> & Hnested).
  - exists nested. split; [|exact Hnested]. cbn [app]. do 2 f_equal.
    destruct (filter_headings parsed_text) as [|first_heading more].
    + now injection Hsummary as <-.
    + apply bind_ok in Hsummary as (pieces & Hpieces & Hsummary).
      destruct (split_first_pieces _ _ _ Hpieces) as [Hfirst _].
      rewrite Hfirst in Hsummary. now injection Hsummary as <-.
  - intros sub r Hr.
    exact (all_subsections_below_kept_headings _ _ _ _ _ Hr).
Qed.

End MoreFlattening.

(** A nested heading that repeats the heading string cuts the text short. *)
Lemma all_subsections_own_then_nested_witness :
  exists before after own_text nested,
    find_first "==Results=="
               (to_str (SectionNode 2 "==Results==" " text "
                                    [SectionNode 3 "===Results===" " more" []]))
    = Some (before, after)
    /\ [ (["T"; "==Results=="], " text =");
         (["T"; "==Results=="; "===Results==="], " more") ]
       = ((["T"] ++ ["==Results=="])%list, own_text) :: nested
    /\ own_text
       = text_before "===Results===" (text_before "==Results==" after)
    /\ Forall (below_kept_headings SECTIONS_TO_IGNORE
                                   (["T"] ++ ["==Results=="])%list)
              nested.
Proof.
  exact (all_subsections_own_then_nested
           2 (SectionNode 2 "==Results==" " text "
                          [SectionNode 3 "===Results===" " more" []])
           ["T"] SECTIONS_TO_IGNORE "==Results=="
           [ (["T"; "==Results=="], " text =");
             (["T"; "==Results=="; "===Results==="], " more") ]
           eq_refl eq_refl eq_refl).
Defined.

Lemma all_subsections_from_title_witness :
  exists nested,
    [ (["References"], "Intro."); (["References"; "==A=="], "short");
      (["References"; "==A=="; "===B==="], "bee");
      (["References"; "==A=="; "===C==="], "cee");
      (["References"; "==A=="; "===C==="; "====D===="], "dee") ]
    = (["References"], text_before "==A==" (to_str example_page)) :: nested
    /\ Forall (below_kept_headings SECTIONS_TO_IGNORE ["References"]) nested.
Proof.
  exact (all_subsections_from_title_summary_first
           3 example_page "References" SECTIONS_TO_IGNORE
           [ (["References"], "Intro."); (["References"; "==A=="], "short");
             (["References"; "==A=="; "===B==="], "bee");
             (["References"; "==A=="; "===C==="], "cee");
             (["References"; "==A=="; "===C==="; "====D===="], "dee") ]
           eq_refl).
Defined.

(** ** More on cleaning *)

Lemma strip_by_first (p : ascii -> bool) (s : string) (c : ascii) (rest : string) :
  strip_by p s = String c rest -> p c = false.
Proof.
  unfold strip_by.
  destruct (lstrip_by_head p s) as [->|(c0 & r0 & -> & Hc0)]; [discriminate|].
  destruct (rstrip_by_head p c0 r0 Hc0) as [r' ->]. now intros [= <- _].
Qed.

Lemma rstrip_by_last (p : ascii -> bool) (s : string) :
  forall rest c, rstrip_by p s = rest ++ String c "" -> p c = false.
Proof.
  induction s as [|a s IH]; intros rest c Hlast.
  - destruct rest; discriminate.
  - simpl in Hlast. destruct (rstrip_by p s) as [|d r] eqn:Hr.
    + destruct (p a) eqn:Ha; [destruct rest; discriminate|].
      destruct rest as [|b [|b' rest]]; simpl in Hlast; try discriminate.
      now injection Hlast as <-.
    + destruct rest as [|b rest]; [discriminate|].
      simpl in Hlast. injection Hlast as _ Hlast. exact (IH _ _ Hlast).
Qed.

Lemma sub_ref_length (text : string) :
  (String.length (sub_ref text) <= String.length text)%nat.
Proof. pose proof (sub_ref_from_length text 0). unfold sub_ref. lia. Qed.

(** X10: every section that is left after cleaning and filtering has the
    titles of a section that went in and a text of at least 16 characters,
    not longer than the original, that neither begins nor ends with a
    whitespace character. *)
Theorem cleaned_and_kept_sections
        (wikipedia_sections : list subsection) (titles : list string)
        (text : string) :
  In (titles, text) (cleaned_and_kept wikipedia_sections) ->
  (exists original,
      In (titles, original) wikipedia_sections
      /\ (titles, text) = clean_section (titles, original)
      /\ (String.length text <= String.length original)%nat)
  /\ (16 <= String.length text)%nat
  /\ (forall c rest, text = String c rest -> isspace c = false)
  /\ (forall rest c, text = rest ++ String c "" -> isspace c = false).
Proof.
  unfold cleaned_and_kept. intros Hin.
  apply filter_In in Hin as [Hin Hkeep].
  apply in_map_iff in Hin as ([titles' original] & Hclean & Hin).
  cbn [clean_section] in Hclean. injection Hclean as -> <-.
  split; [|split; [|split]].
  - exists original. repeat split; [exact Hin|].
    pose proof (strip_by_length isspace (sub_ref original)).
    pose proof (sub_ref_length original). unfold strip. lia.
  - cbn [keep_section] in Hkeep.
    destruct (Nat.ltb_spec (String.length (strip (sub_ref original))) 16);
      [discriminate | assumption].
  - intros c rest. apply strip_by_first.
  - intros rest c. apply rstrip_by_last.
Qed.

Lemma cleaned_and_kept_witness :
  (exists original,
      In (["T"], original)
         [ (["T"], "  A long enough text.<ref>x</ref> "); (["U"], " short ") ]
      /\ (["T"], "A long enough text.") = clean_section (["T"], original)
      /\ (String.length "A long enough text." <= String.length original)%nat)
  /\ (16 <= String.length "A long enough text.")%nat
  /\ (forall c rest, "A long enough text." = String c rest -> isspace c = false)
  /\ (forall rest c,
         "A long enough text." = rest ++ String c "" -> isspace c = false).
Proof.
  apply (cleaned_and_kept_sections
           [ (["T"], "  A long enough text.<ref>x</ref> "); (["U"], " short ") ]
           ["T"] "A long enough text.").
  left. reflexivity.
Defined.

Lemma startswith_other_head (c d : ascii) (s p : string) :
  c <> d -> startswith (String c s) (String d p) = false.
Proof.
  intros Hne. destruct (startswith (String c s) (String d p)) eqn:Hhere;
    [|reflexivity].
  apply startswith_inv in Hhere as [r Hr]. simpl in Hr.
  injection Hr as -> _. now elim Hne.
Qed.

Lemma match_ref_other_head (c : ascii) (s : string) :
  c <> "<"%char -> match_ref (String c s) = None.
Proof.
  intros Hc. unfold match_ref.
  now rewrite (startswith_other_head c "<" s "ref" Hc).
Qed.

(** Text without ['<'] passes through the removal untouched. *)
Lemma sub_ref_from_plain_prefix (before s : string) :
  ~ In "<"%char (list_ascii_of_string before) ->
  sub_ref_from 0 (before ++ s) = before ++ sub_ref_from 0 s.
Proof.
  induction before as [|c before IH]; intros Hplain; [reflexivity|].
  cbn [append sub_ref_from].
  rewrite match_ref_other_head by (intros ->; apply Hplain; now left).
  f_equal. apply IH. intros Hin. apply Hplain. now right.
Qed.

Lemma lazy_dots_then_close_cons (c : ascii) (s : string) :
  lazy_dots_then_close (String c s)
  = if startswith (String c s) "</ref>" then Some 6%nat
    else if Ascii.eqb c newline then None
         else option_map S (lazy_dots_then_close s).
Proof. reflexivity. Qed.

Lemma lazy_dots_then_close_plain (inner after : string) :
  ~ In "<"%char (list_ascii_of_string inner) ->
  ~ In newline (list_ascii_of_string inner) ->
  lazy_dots_then_close (inner ++ "</ref>" ++ after)
  = Some (String.length inner + 6)%nat.
Proof.
  induction inner as [|c inner IH]; intros Hplain Hline.
  - change ("" ++ "</ref>" ++ after) with ("</ref>" ++ after).
    destruct after; reflexivity.
  - change (String c inner ++ "</ref>" ++ after)
      with (String c (inner ++ "</ref>" ++ after)).
    rewrite lazy_dots_then_close_cons.
    assert (Hhead : startswith (String c (inner ++ "</ref>" ++ after)) "</ref>"
                    = false).
    { apply startswith_other_head. intros ->. apply Hplain. now left. }
    rewrite Hhead.
    destruct (Ascii.eqb_spec c newline) as [->|_]; [elim Hline; now left|].
    rewrite IH; [reflexivity | |]; intros Hin; [apply Hplain | apply Hline];
      now right.
Qed.

Lemma sub_ref_from_skip (pre s : string) :
  sub_ref_from (String.length pre) (pre ++ s) = sub_ref_from 0 s.
Proof. induction pre as [|c pre IH]; [reflexivity | exact IH]. Qed.

(** X11: a reference on one line is removed and the text before it is kept.
    When [before] has no ['<'] and [inner] has neither a ['<'] nor a line
    break, removing the references from
    [before + "<ref" + inner + "</ref>" + after] gives [before] followed by
    what the removal leaves of [after]. *)
Theorem sub_ref_removes_single_line_ref (before inner after : string) :
  ~ In "<"%char (list_ascii_of_string before) ->
  ~ In "<"%char (list_ascii_of_string inner) ->
  ~ In newline (list_ascii_of_string inner) ->
  sub_ref (before ++ "<ref" ++ inner ++ "</ref>" ++ after)
  = before ++ sub_ref after.
Proof.
  intros Hbefore Hinner Hline. unfold sub_ref.
  rewrite sub_ref_from_plain_prefix by assumption. f_equal.
  assert (Hmatch : match_ref ("<ref" ++ inner ++ "</ref>" ++ after)
                   = Some (4 + (String.length inner + 6))%nat).
  { unfold match_ref. rewrite startswith_app.
    change (drop 4 ("<ref" ++ inner ++ "</ref>" ++ after))
      with (inner ++ "</ref>" ++ after).
    now rewrite lazy_dots_then_close_plain. }
  change ("<ref" ++ inner ++ "</ref>" ++ after)
    with (String "<" ("ref" ++ inner ++ "</ref>" ++ after)) in *.
  cbn [sub_ref_from]. rewrite Hmatch.
  replace (4 + (String.length inner + 6) - 1)%nat
    with (String.length ("ref" ++ inner ++ "</ref>"))
    by (rewrite !string_length_app; simpl; lia).
  rewrite <- sub_ref_from_skip with (pre := "ref" ++ inner ++ "</ref>").
  now rewrite !app_assoc_string.
Qed.

Lemma sub_ref_removes_witness :
  sub_ref ("Beijing" ++ "<ref" ++ " name=a>cite" ++ "</ref>" ++ " hosted.")
  = "Beijing" ++ sub_ref " hosted.".
Proof.
  apply (sub_ref_removes_single_line_ref "Beijing" " name=a>cite" " hosted.");
    simpl; intros Hin;
    repeat (destruct Hin as [Hin|Hin]; [discriminate|]); exact Hin.
Defined.

(* ================================================================= *)
(** ** Collecting page titles *)

Section Titles.

Context {Category : Type} `{MwClient Category}.

Lemma page_within_mono (depth depth' : nat) :
  (depth <= depth')%nat ->
  forall category title,
    page_within depth category title -> page_within depth' category title.
Proof.
  revert depth'. induction depth as [|depth IH]; intros depth' Hle category title.
  - intros [Hpage|[]]. destruct depth'; now left.
  - destruct depth' as [|depth']; [lia|].
    intros [Hpage|(name & sub & Hin & Hdeep)]; [now left|].
    right. exists name, sub. split; [exact Hin|]. apply IH; [lia | exact Hdeep].
Qed.

(** The loop over the members adds the names of the plain pages and, when
    [max_depth > 0], what [recurse] returns for the categories. *)
Lemma collect_titles_pages (recurse : Category -> result (list string))
      (deep : Category -> string -> Prop) (max_depth : Z) :
  ((0 < max_depth)%Z ->
   forall category,
   exists titles,
     recurse category = Ok titles
     /\ NoDup titles /\ forall title, In title titles <-> deep category title) ->
  forall cms titles,
    NoDup titles ->
    exists out,
      collect_titles recurse max_depth cms titles = Ok out
      /\ NoDup out
      /\ forall title,
          In title out
          <-> In title titles
              \/ In (PageMember title) cms
              \/ ((0 < max_depth)%Z
                  /\ exists name sub,
                      In (CategoryMember name sub) cms /\ deep sub title).
Proof.
  intros Hrec. induction cms as [|cm cms IH]; intros titles Hnodup.
  - exists titles. repeat split; auto.
    intros [Hin|[[]|(_ & _ & _ & [] & _)]]. exact Hin.
  - cbn [collect_titles]. destruct cm as [name|name sub|name].
    + destruct (IH (set_add string_dec name titles)) as (out & Hout & Hnd & Hiff);
        [now apply set_add_nodup|].
      exists out. repeat split; auto.
      * intros Hin. apply Hiff in Hin as [Hin|[Hin|Hin]].
        -- apply set_add_iff in Hin as [->|Hin]; [right; left; now left | now left].
        -- right. left. now right.
        -- destruct Hin as (Hpos & n & sub & Hin & Hdeep).
           right. right. split; [exact Hpos|]. exists n, sub. split; [now right | auto].
      * intros [Hin|[[Heq|Hin]|(Hpos & n & sub & [Heq|Hin] & Hdeep)]];
          apply Hiff.
        -- left. apply set_add_iff. now right.
        -- injection Heq as <-. left. apply set_add_iff. now left.
        -- right. now left.
        -- discriminate.
        -- right. right. split; [exact Hpos|]. now exists n, sub.
    + destruct (Z.gtb_spec max_depth 0) as [Hpos|Hneg].
      * destruct (Hrec ltac:(lia) sub) as (deeper & Hdeeper & Hnd' & Hdeep).
        rewrite Hdeeper. cbn [bind].
        destruct (IH (set_union string_dec titles deeper))
          as (out & Hout & Hnd & Hiff); [now apply set_union_nodup|].
        exists out. repeat split; auto.
        -- intros Hin. apply Hiff in Hin as [Hin|[Hin|Hin]].
           ++ apply set_union_iff in Hin as [Hin|Hin]; [now left|].
              right. right. split; [lia|]. exists name, sub.
              split; [now left | now apply Hdeep].
           ++ right. left. now right.
           ++ destruct Hin as (Hp & n & s & Hin & Hd).
              right. right. split; [exact Hp|]. exists n, s. split; [now right | auto].
        -- intros [Hin|[[Heq|Hin]|(Hp & n & s & [Heq|Hin] & Hd)]]; apply Hiff.
           ++ left. apply set_union_iff. now left.
           ++ discriminate.
           ++ right. now left.
           ++ injection Heq as <- <-. left. apply set_union_iff. right.
              now apply Hdeep.
           ++ right. right. split; [exact Hp|]. now exists n, s.
      * destruct (IH titles Hnodup) as (out & Hout & Hnd & Hiff).
        exists out. repeat split; auto.
        -- intros Hin. apply Hiff in Hin as [Hin|[Hin|(Hp & _)]];
             [now left | right; left; now right | lia].
        -- intros [Hin|[[Heq|Hin]|(Hp & _)]]; [| discriminate | | lia];
             apply Hiff; [now left | right; now left].
    + destruct (IH titles Hnodup) as (out & Hout & Hnd & Hiff).
      exists out. repeat split; auto.
      * intros Hin. apply Hiff in Hin as [Hin|[Hin|Hin]].
        -- now left.
        -- right. left. now right.
        -- destruct Hin as (Hp & n & s & Hin & Hd).
           right. right. split; [exact Hp|]. exists n, s. split; [now right | auto].
      * intros [Hin|[[Heq|Hin]|(Hp & n & s & [Heq|Hin] & Hd)]]; apply Hiff.
        -- now left.
        -- discriminate.
        -- right. now left.
        -- discriminate.
        -- right. right. split; [exact Hp|]. now exists n, s.
Qed.

Lemma titles_from_category_fuel_pages :
  forall fuel category max_depth,
    (Z.to_nat max_depth < fuel)%nat ->
    exists titles,
      titles_from_category_fuel fuel category max_depth = Ok titles
      /\ NoDup titles
      /\ forall title,
          In title titles <-> page_within (Z.to_nat max_depth) category title.
Proof.
  induction fuel as [|fuel IH]; intros category max_depth Hfuel; [lia|].
  cbn [titles_from_category_fuel].
  destruct (collect_titles_pages
              (fun cm => titles_from_category_fuel fuel cm (max_depth - 1)%Z)
              (page_within (Z.to_nat (max_depth - 1))) max_depth)
    with (cms := members category) (titles := @nil string)
    as (out & Hout & Hnd & Hiff).
  - intros Hpos sub. apply IH. lia.
  - constructor.
  - exists out. repeat split; auto.
    + intros Hin. apply Hiff in Hin as [[]|[Hin|(Hpos & name & sub & Hin & Hd)]];
        [destruct (Z.to_nat max_depth); now left|].
      replace (Z.to_nat max_depth) with (S (Z.to_nat (max_depth - 1))) by lia.
      right. now exists name, sub.
    + intros Hin. apply Hiff.
      destruct (Z.to_nat max_depth) as [|depth] eqn:Hdepth.
      * destruct Hin as [Hin|[]]. right. now left.
      * destruct Hin as [Hin|(name & sub & Hin & Hd)]; [right; now left|].
        right. right. split; [lia|]. exists name, sub. split; [exact Hin|].
        now replace (Z.to_nat (max_depth - 1)) with depth by lia.
Qed.

(** X12: [titles_from_category] returns, without duplicates, exactly the names
    of the plain pages that lie in the category or at most [max_depth] levels
    of subcategories below it; members that are neither plain pages nor
    categories add nothing, and for [max_depth <= 0] only the pages of the
    category itself are returned. *)
Theorem titles_from_category_pages (category : Category) (max_depth : Z) :
  exists titles,
    titles_from_category category max_depth = Ok titles
    /\ NoDup titles
    /\ forall title,
        In title titles <-> page_within (Z.to_nat max_depth) category title.
Proof. apply titles_from_category_fuel_pages. lia. Qed.

(** X13: a larger [max_depth] never loses a title. *)
Theorem titles_from_category_monotone
        (category : Category) (max_depth max_depth' : Z) :
  (max_depth <= max_depth')%Z ->
  exists titles titles',
    titles_from_category category max_depth = Ok titles
    /\ titles_from_category category max_depth' = Ok titles'
    /\ incl titles titles'.
Proof.
  intros Hle.
  destruct (titles_from_category_fuel_pages
              (S (Z.to_nat max_depth)) category max_depth)
    as (titles & Ht & _ & Hiff); [lia|].
  destruct (titles_from_category_fuel_pages
              (S (Z.to_nat max_depth')) category max_depth')
    as (titles' & Ht' & _ & Hiff'); [lia|].
  exists titles, titles'. repeat split; auto.
  intros title Hin. apply Hiff'. apply Hiff in Hin.
  revert Hin. apply page_within_mono. lia.
Qed.

End Titles.

Lemma titles_from_category_monotone_witness :
  exists titles titles',
    titles_from_category olympics_category 1 = Ok titles
    /\ titles_from_category olympics_category 2 = Ok titles'
    /\ incl titles titles'.
Proof.
  apply (titles_from_category_monotone olympics_category 1 2). lia.
Defined.

(* ================================================================= *)
(** ** Embedding in batches *)

(** The batch starts are multiples of the step. *)
Lemma range_steps_In (count start step st : nat) :
  In st (range_steps count start step) ->
  exists j, (j < count)%nat /\ st = (start + j * step)%nat.
Proof.
  revert start. induction count as [|count IH]; intros start Hin; [destruct Hin|].
  destruct Hin as [<-|Hin].
  - exists 0%nat. lia.
  - destruct (IH _ Hin) as (j & Hj & ->). exists (S j). lia.
Qed.

(** Slices of [step] elements from consecutive starts make up the rest of the
    list, once there are enough of them. *)
Lemma concat_slices {A : Type} (xs : list A) (step : nat) :
  forall count start,
    (List.length xs <= start + count * step)%nat ->
    List.concat (map (fun st => slice xs st (st + step)) (range_steps count start step))
    = skipn start xs.
Proof.
  induction count as [|count IH]; intros start Hlen.
  - simpl. symmetry. apply skipn_all2. lia.
  - cbn [range_steps map List.concat]. rewrite IH by lia.
    unfold slice. replace (start + step - start)%nat with step by lia.
    replace (start + step)%nat with (step + start)%nat by lia.
    rewrite <- skipn_skipn. apply firstn_skipn.
Qed.

Lemma range_by_enough (stop step : nat) :
  (0 < step)%nat ->
  (stop <= (stop + step - 1) / step * step
   /\ ((stop + step - 1) / step - 1) * step <= stop - 1)%nat.
Proof.
  intros Hstep.
  pose proof (Nat.div_mod_eq (stop + step - 1) step) as Hdiv.
  pose proof (Nat.mod_upper_bound (stop + step - 1) step ltac:(lia)) as Hmod.
  nia.
Qed.

Section EmbedProperties.

Variable Embedding : Type.
Variable create : list string -> list (nat * Embedding).

(** What the loop has sent and collected when it ends without a failed
    [assert]. *)
Lemma embed_batches_done (wikipedia_strings : list string) :
  forall batch_starts requests embeddings requests' embeddings',
    embed_batches Embedding create wikipedia_strings batch_starts
                  requests embeddings
    = Embedded requests' embeddings' ->
    requests'
    = (requests
       ++ map (fun st => slice wikipedia_strings st (st + BATCH_SIZE))
              batch_starts)%list
    /\ embeddings'
       = (embeddings
          ++ flat_map (fun st =>
                         map snd (create (slice wikipedia_strings st
                                                (st + BATCH_SIZE))))
                      batch_starts)%list.
Proof.
  induction batch_starts as [|st batch_starts IH];
    intros requests embeddings requests' embeddings' Hdone.
  - injection Hdone as <- <-. now rewrite !app_nil_r.
  - cbn [embed_batches] in Hdone.
    destruct (in_order Embedding 0 _); [|discriminate].
    apply IH in Hdone as [-> ->]. cbn [map flat_map].
    now rewrite <- !app_assoc.
Qed.

(** X14: when the embedding loop ends without a failed [assert], the batches
    it sent are, one after the other, exactly [wikipedia_strings]: every
    string is sent once and in order, in batches that are not empty and have
    at most [BATCH_SIZE] strings; the embeddings are those of the responses,
    batch after batch. *)
Theorem embed_strings_batches
        (wikipedia_strings : list string) (requests : list (list string))
        (embeddings : list Embedding) :
  embed_strings Embedding create wikipedia_strings
  = Embedded requests embeddings ->
  List.concat requests = wikipedia_strings
  /\ Forall (fun batch =>
               batch <> [] /\ (List.length batch <= BATCH_SIZE)%nat) requests
  /\ embeddings = flat_map (fun batch => map snd (create batch)) requests.
Proof.
  unfold embed_strings, range_by. intros Hdone.
  apply embed_batches_done in Hdone as [-> ->]. cbn [app].
  assert (Hstep : (0 < BATCH_SIZE)%nat) by (unfold BATCH_SIZE; lia).
  destruct (range_by_enough (List.length wikipedia_strings) BATCH_SIZE Hstep)
    as [Henough Hlast].
  split; [|split].
  - rewrite concat_slices by lia. reflexivity.
  - apply Forall_forall. intros batch Hin.
    apply in_map_iff in Hin as (st & <- & Hst).
    apply range_steps_In in Hst as (j & Hj & ->).
    unfold slice.
    replace (0 + j * BATCH_SIZE + BATCH_SIZE - (0 + j * BATCH_SIZE))%nat
      with BATCH_SIZE by lia.
    split; [|apply firstn_le_length].
    intros Hempty. apply (f_equal (@List.length _)) in Hempty.
    rewrite length_firstn, length_skipn in Hempty. cbn [List.length] in Hempty.
    assert (j * BATCH_SIZE
            <= ((List.length wikipedia_strings + BATCH_SIZE - 1) / BATCH_SIZE - 1)
               * BATCH_SIZE)%nat by (apply Nat.mul_le_mono_r; lia).
    destruct wikipedia_strings as [|s strings].
    + change (List.length (@nil string)) with 0%nat in Hj.
      rewrite Nat.add_0_l, Nat.div_small in Hj by lia. lia.
    + cbn [List.length] in *. lia.
  - rewrite flat_map_concat_map, flat_map_concat_map, map_map. reflexivity.
Qed.

Lemma in_order_combine_seq (data : list Embedding) :
  forall i, in_order Embedding i (combine (seq i (List.length data)) data) = true.
Proof.
  induction data as [|e data IH]; intros i; [reflexivity|].
  cbn [List.length seq combine in_order fst]. now rewrite Nat.eqb_refl, IH.
Qed.

Lemma map_snd_combine_seq (data : list Embedding) :
  forall i, map snd (combine (seq i (List.length data)) data) = data.
Proof.
  induction data as [|e data IH]; intros i; [reflexivity|].
  cbn [List.length seq combine map snd]. now rewrite IH.
Qed.

Lemma response_in_order (embedding : string -> Embedding) (batch : list string) :
  create batch = combine (seq 0 (List.length batch)) (map embedding batch) ->
  in_order Embedding 0 (create batch) = true
  /\ map snd (create batch) = map embedding batch.
Proof.
  intros ->. rewrite <- (length_map embedding batch).
  split; [apply in_order_combine_seq | apply map_snd_combine_seq].
Qed.

Lemma embed_batches_in_order (embedding : string -> Embedding)
      (wikipedia_strings : list string) :
  (forall batch,
      create batch = combine (seq 0 (List.length batch)) (map embedding batch)) ->
  forall batch_starts requests embeddings,
  exists requests' embeddings',
    embed_batches Embedding create wikipedia_strings batch_starts
                  requests embeddings
    = Embedded requests' embeddings'.
Proof.
  intros Hcreate. induction batch_starts as [|st batch_starts IH];
    intros requests embeddings; [now eexists _, _|].
  cbn [embed_batches].
  destruct (response_in_order embedding _ (Hcreate
              (slice wikipedia_strings st (st + BATCH_SIZE)))) as [-> _].
  apply IH.
Qed.

(** X15: when every response holds the embeddings of its inputs, one for each
    input and in the order of the inputs, the loop passes every [assert] and
    collects the embeddings of [wikipedia_strings], one for each string and
    in the same order. *)
Theorem embed_strings_aligned (embedding : string -> Embedding)
        (wikipedia_strings : list string) :
  (forall batch,
      create batch = combine (seq 0 (List.length batch)) (map embedding batch)) ->
  exists requests,
    embed_strings Embedding create wikipedia_strings
    = Embedded requests (map embedding wikipedia_strings).
Proof.
  intros Hcreate.
  destruct (embed_batches_in_order embedding wikipedia_strings Hcreate
              (range_by (List.length wikipedia_strings) BATCH_SIZE) [] [])
    as (requests & embeddings & Hdone).
  exists requests. unfold embed_strings. rewrite Hdone. f_equal.
  pose proof Hdone as Hsent.
  unfold range_by in Hsent. apply embed_batches_done in Hsent as [Hreq ->].
  cbn [app] in *.
  assert (Hstep : (0 < BATCH_SIZE)%nat) by (unfold BATCH_SIZE; lia).
  destruct (range_by_enough (List.length wikipedia_strings) BATCH_SIZE Hstep)
    as [Henough _].
  rewrite <- (concat_slices wikipedia_strings BATCH_SIZE
                            ((List.length wikipedia_strings + BATCH_SIZE - 1)
                             / BATCH_SIZE) 0) at 2 by lia.
  rewrite flat_map_concat_map, concat_map, map_map. f_equal.
  apply map_ext. intros st.
  exact (proj2 (response_in_order embedding _ (Hcreate _))).
Qed.

End EmbedProperties.

Lemma embed_strings_batches_witness :
  List.concat [["a"; "b"; "c"]] = ["a"; "b"; "c"]
  /\ Forall (fun batch => batch <> [] /\ (List.length batch <= BATCH_SIZE)%nat)
            [["a"; "b"; "c"]]
  /\ [1; 1; 1]%nat
     = flat_map
         (fun batch =>
            map snd (combine (seq 0 (List.length batch)) (map String.length batch)))
         [["a"; "b"; "c"]].
Proof.
  apply (embed_strings_batches
           nat (fun batch =>
                  combine (seq 0 (List.length batch)) (map String.length batch))
           ["a"; "b"; "c"]).
  vm_compute. reflexivity.
Defined.

Lemma embed_strings_aligned_witness :
  exists requests,
    embed_strings nat (fun batch =>
                         combine (seq 0 (List.length batch))
                                 (map String.length batch))
                  ["Beijing"; "2022"]
    = Embedded requests (map String.length ["Beijing"; "2022"]).
Proof.
  apply (embed_strings_aligned
           nat (fun batch =>
                  combine (seq 0 (List.length batch)) (map String.length batch))
           String.length ["Beijing"; "2022"]).
  reflexivity.
Defined.

(* ================================================================= *)
(** ** The truncation fallback *)

Section Fallback.

Context `{Tokenizer}.

(** X17: with the default model, [max_tokens >= 0] and an encoding that encodes
    every decoded slice [encoded_string[:max_tokens]] back to that slice,
    every string that [split_strings_from_subsection] returns is either the
    candidate of a piece of text, with at most [max_tokens] tokens, or the
    truncated candidate of a piece, with exactly [max_tokens] tokens. *)
Theorem split_strings_fallback_exact
        (titles : list string) (text : string)
        (max_tokens : Z) (max_recursion : Z) :
  (0 <= max_tokens)%Z ->
  (forall string,
      let encoding := encoding_for_model GPT_MODEL in
      encode encoding
             (decode encoding (slice_to (encode encoding string) max_tokens))
      = slice_to (encode encoding string) max_tokens) ->
  exists strings,
    split_strings_from_subsection (titles, text) max_tokens GPT_MODEL
                                  max_recursion
    = Ok strings
    /\ Forall
         (fun string =>
            (exists piece,
                string = candidate titles piece
                /\ (num_tokens string GPT_MODEL <= max_tokens)%Z)
            \/ (exists piece,
                   string = truncated_string (candidate titles piece)
                                             GPT_MODEL max_tokens
                   /\ num_tokens string GPT_MODEL = max_tokens))
         strings.
Proof.
  intros Hpos Hstable. unfold split_strings_from_subsection. cbn [snd].
  apply (split_strings_fuel_inv
           (fun _ strings =>
              Forall
                (fun string =>
                   (exists piece,
                       string = candidate titles piece
                       /\ (num_tokens string GPT_MODEL <= max_tokens)%Z)
                   \/ (exists piece,
                          string = truncated_string (candidate titles piece)
                                                    GPT_MODEL max_tokens
                          /\ num_tokens string GPT_MODEL = max_tokens))
                strings)).
  - intros _ text' Hle. constructor; [|constructor]. left. now exists text'.
  - intros _ text' Hover. constructor; [|constructor]. right. exists text'.
    split; [reflexivity|].
    unfold num_tokens, truncated_string in *. rewrite Hstable.
    rewrite slice_to_nonneg, length_firstn by assumption. lia.
  - intros _ a b _ Ha Hb. apply Forall_app. now split.
  - lia.
Qed.

End Fallback.

Lemma split_strings_fallback_exact_witness :
  exists strings,
    @split_strings_from_subsection char_tokenizer (["T"], four_paragraphs) 8
                                   GPT_MODEL 1
    = Ok strings
    /\ Forall
         (fun string =>
            (exists piece,
                string = candidate ["T"] piece
                /\ (@num_tokens char_tokenizer string GPT_MODEL <= 8)%Z)
            \/ (exists piece,
                   string = @truncated_string char_tokenizer
                                              (candidate ["T"] piece) GPT_MODEL 8
                   /\ @num_tokens char_tokenizer string GPT_MODEL = 8%Z))
         strings.
Proof.
  apply (@split_strings_fallback_exact char_tokenizer ["T"] four_paragraphs 8 1).
  - lia.
  - intros string. apply char_encoding_stable.
Defined.

(* ================================================================= *)
(** ** Flattening a well-nested section tree *)

(** Induction on a section tree, with the property for all nested sections. *)
Fixpoint SectionTree_nested_ind (P : SectionTree -> Prop)
         (step : forall level heading body children,
             Forall P children -> P (SectionNode level heading body children))
         (t : SectionTree) : P t :=
  match t with
  | SectionNode level heading body children =>
      step level heading body children
           ((fix all (cs : list SectionTree) : Forall P cs :=
               match cs with
               | [] => Forall_nil P
               | c :: cs' =>
                   Forall_cons c (SectionTree_nested_ind P step c) (all cs')
               end) children)
  end.

(** In a well-nested tree, the only section of level [n] in a section of
    level [n] or more is the section itself. *)
Lemma tree_sections_self (n : Z) (t : SectionTree) :
  well_nested t -> (n <= tree_level t)%Z ->
  forall s, In s (tree_sections [n] t) -> s = t /\ tree_level t = n.
Proof.
  induction t as [level heading body children IH] using SectionTree_nested_ind.
  intros Hnested Hlevel s Hin. inversion Hnested as [? ? ? ? Hchildren]; subst.
  cbn [tree_sections tree_level] in *.
  apply in_app_or in Hin as [Hin|Hin].
  - cbn [existsb] in Hin. rewrite orb_false_r in Hin.
    destruct (Z.eqb_spec level n) as [->|_]; [|destruct Hin].
    destruct Hin as [<-|[]]. now split.
  - apply in_flat_map in Hin as (c & Hc & Hin).
    rewrite Forall_forall in IH, Hchildren.
    destruct (Hchildren c Hc) as [Hdeeper Hwell].
    assert (Hn : (n <= tree_level c)%Z) by lia.
    destruct (IH c Hc Hwell Hn s Hin) as [_ Heq]. exfalso. lia.
Qed.

(** The sections that a call on a well-nested section asks for, those of the
    next level, are sections directly nested in it. *)
Lemma tree_sections_next_level (t s : SectionTree) :
  well_nested t ->
  In s (tree_sections [(tree_level t + 1)%Z] t) ->
  In s (tree_children t) /\ well_nested s /\ tree_level s = (tree_level t + 1)%Z.
Proof.
  intros Hnested Hin. destruct t as [level heading body children].
  inversion Hnested as [? ? ? ? Hchildren]; subst.
  cbn [tree_sections tree_level tree_children] in *.
  apply in_app_or in Hin as [Hin|Hin].
  - cbn [existsb] in Hin. rewrite orb_false_r in Hin.
    destruct (Z.eqb_spec level (level + 1)) as [Heq|_]; [lia | destruct Hin].
  - apply in_flat_map in Hin as (c & Hc & Hin).
    rewrite Forall_forall in Hchildren.
    destruct (Hchildren c Hc) as [Hdeeper Hwell].
    assert (Hn : (level + 1 <= tree_level c)%Z) by lia.
    destruct (tree_sections_self _ c Hwell Hn s Hin) as [-> Hlevel].
    auto.
Qed.

(** The loop keeps a property of the results that every extension by a member
    of the list has. *)
Lemma extend_each_Forall_in {A B : Type} (P : B -> Prop)
      (f : A -> result (list B)) (xs : list A) :
  (forall x r, In x xs -> f x = Ok r -> Forall P r) ->
  forall results out,
    Forall P results -> extend_each f results xs = Ok out -> Forall P out.
Proof.
  induction xs as [|x xs IH]; intros Hf results out Hres Hout.
  - injection Hout as <-. exact Hres.
  - cbn [extend_each] in Hout. apply bind_ok in Hout as (r & Hr & Hout).
    apply (IH (fun y s Hy => Hf y s (or_intror Hy)) (results ++ r)%list);
      [|exact Hout].
    apply Forall_app. split; [exact Hres | exact (Hf x r (or_introl eq_refl) Hr)].
Qed.

(** X18: in the section-tree model of the parser, where [get_sections] returns
    the sections of the levels asked for at any depth, take a section in which
    heading levels grow from every section to the sections nested in it, and
    flatten it with [len(parent_titles) + 1] equal to its level.  Then every
    subsection returned has, below the parent titles, the headings of a chain
    of sections, each directly nested in the one before, that starts at the
    section and holds no ignored heading: nothing nested, at any depth, in an
    ignored section is returned. *)
Theorem well_nested_sections_follow_kept_chains
        (sections_to_ignore : list string) :
  forall (fuel : nat) (t : SectionTree) (parent_titles : list string)
         (results : list subsection),
    well_nested t ->
    tree_level t = (Z.of_nat (List.length parent_titles) + 1)%Z ->
    all_subsections_from_section fuel t parent_titles sections_to_ignore
    = Ok results ->
    Forall (fun sub =>
              exists headings,
                fst sub = (parent_titles ++ headings)%list
                /\ kept_chain sections_to_ignore t headings)
           results.
Proof.
  induction fuel as [|fuel IH]; intros t parent_titles results Hnested Hlevel Hres;
    [discriminate|].
  cbn [all_subsections_from_section] in Hres.
  assert (Hhead : index (filter_headings t) 0 = Ok (tree_heading t))
    by now destruct t.
  rewrite Hhead in Hres. cbn [bind] in Hres.
  destruct (ignored sections_to_ignore (tree_heading t)) eqn:Hkept.
  { injection Hres as <-. constructor. }
  assert (Hhere : forall text : string,
             exists headings,
               fst ((parent_titles ++ [tree_heading t])%list, text)
               = (parent_titles ++ headings)%list
               /\ kept_chain sections_to_ignore t headings).
  { intros text. exists [tree_heading t]. split; [reflexivity|].
    now constructor. }
  apply bind_ok in Hres as (pieces & _ & Hres).
  apply bind_ok in Hres as (section_text & _ & Hres).
  destruct (List.length (filter_headings t) =? 1)%nat.
  { injection Hres as <-. constructor; [apply Hhere | constructor]. }
  apply bind_ok in Hres as (first_subtitle & _ & Hres).
  apply bind_ok in Hres as (pieces' & _ & Hres).
  apply bind_ok in Hres as (section_text' & _ & Hres).
  revert Hres. apply extend_each_Forall_in.
  - intros s r Hin Hr.
    assert (Hasked : (Z.of_nat (List.length (parent_titles ++ [tree_heading t])%list)
                      + 1 = tree_level t + 1)%Z)
      by (rewrite List.length_app; cbn [List.length]; lia).
    cbn [get_sections SectionTree_lib] in Hin. rewrite Hasked in Hin.
    destruct (tree_sections_next_level t s Hnested Hin) as (Hchild & Hwell & Hs).
    apply IH in Hr; [|exact Hwell | lia].
    eapply Forall_impl; [|exact Hr].
    intros [titles text] (headings & Htitles & Hchain). cbn [fst] in *.
    exists (tree_heading t :: headings). split.
    + rewrite Htitles, <- app_assoc. reflexivity.
    + now apply (kept_chain_nested _ t s).
  - constructor; [apply Hhere | constructor].
Qed.

Lemma well_nested_sections_witness :
  Forall (fun sub =>
            exists headings,
              fst sub = (["T"] ++ headings)%list
              /\ kept_chain SECTIONS_TO_IGNORE nested_tree headings)
         [ (["T"; "==A=="], "short");
           (["T"; "==A=="; "===B==="], "bee");
           (["T"; "==A=="; "===C==="], "cee");
           (["T"; "==A=="; "===C==="; "====D===="], "dee") ].
Proof.
  apply (well_nested_sections_follow_kept_chains
           SECTIONS_TO_IGNORE 3 nested_tree ["T"]).
  - repeat (constructor; repeat split; try reflexivity).
  - reflexivity.
  - reflexivity.
Defined.
